(** * Innernet manager: a shallow embedding of [src/innernet_manager.py]

    The manager keeps two SQLite tables, [networks] and [peers], and every
    method of [InnernetManager] is a short transaction against them.  The
    tables are modelled as lists of rows in insertion (rowid) order, the
    methods as computations in a state-and-exception monad over the
    database.  A Python exception leaves the database as it was: the
    [with sqlite3.connect(...)] block rolls the transaction back.

    Values the source draws from its environment ([uuid.uuid4()],
    [os.urandom], [datetime.now()]) are passed to the model as arguments. *)

From Stdlib Require Import List String Ascii Bool NArith ZArith Lia Sorted
  Permutation DecimalString.
Import ListNotations.
Open Scope string_scope.

(** ** Exceptions *)

Inductive exn : Type :=
| ValueError (msg : string)
| IntegrityError (msg : string).

Inductive result (A : Type) : Type :=
| Ok (a : A)
| Raise (e : exn).

Arguments Ok {A} a.
Arguments Raise {A} e.

(** ** The part of Python's [ipaddress] module the manager uses *)

Inductive ip_version : Type := IPv4 | IPv6.

Record IPAddress : Type := mkAddress {
  addr_version : ip_version;
  addr_int : N
}.

Record IPNetwork : Type := mkNetwork {
  version : ip_version;
  network_address : N;
  prefixlen : N
}.

Definition max_prefixlen (v : ip_version) : N :=
  match v with IPv4 => 32 | IPv6 => 128 end.

Definition hostmask (n : IPNetwork) : N :=
  (2 ^ (max_prefixlen (version n) - prefixlen n) - 1)%N.

Definition broadcast_address (n : IPNetwork) : N :=
  N.lor (network_address n) (hostmask n).

(** Python's [range(lo, hi)] over non-negative integers. *)
Definition range (lo hi : N) : list N :=
  map (fun i => (lo + N.of_nat i)%N) (seq 0 (N.to_nat (hi - lo))).

(** [network.hosts()]: for IPv4 the addresses strictly between the network
    and the broadcast address, for IPv6 all but the network address; a
    prefix one bit short of the full length yields both addresses and a
    full-length prefix yields the single address. *)
Definition hosts (n : IPNetwork) : list IPAddress :=
  let network := network_address n in
  let broadcast := broadcast_address n in
  map (mkAddress (version n))
    (if (prefixlen n =? max_prefixlen (version n) - 1)%N then
       range network (broadcast + 1)
     else if (prefixlen n =? max_prefixlen (version n))%N then
       [network]
     else
       match version n with
       | IPv4 => range (network + 1) broadcast
       | IPv6 => range (network + 1) (broadcast + 1)
       end).

(** [ipaddress.ip_network(s)] (which raises [ValueError] on a string that is
    no network prefix) and [str(address)] are the library's; the manager is
    modelled over any implementation of them.  All that is asked of
    [str(address)] is that it is never the empty string. *)
Class Ipaddress : Type := {
  ip_network : string -> result IPNetwork;
  str_address : IPAddress -> string;
  str_address_nonempty : forall a, str_address a <> ""
}.

(** ** The database *)

Record NetworkRow : Type := mkNetworkRow {
  n_id : string;
  n_name : string;
  n_cidr : string;
  n_description : string;
  n_created_at : string;
  n_peer_count : Z
}.

(** [None] is SQL NULL.  The [groups] column holds the JSON text of a list
    of strings and is represented by the list it encodes. *)
Record PeerRow : Type := mkPeerRow {
  p_id : string;
  p_network_id : string;
  p_name : string;
  p_ip : option string;
  p_public_key : string;
  p_allowed_ips : string;
  p_endpoint : option string;
  p_last_handshake : option string;
  p_status : string;
  p_groups : option (list string)
}.

Record DB : Type := mkDB {
  networks : list NetworkRow;
  peers : list PeerRow
}.

(** The database right after [_init_db] on a new file. *)
Definition empty_db : DB := {| networks := []; peers := [] |}.

(** ** The monad *)

Definition M (A : Type) : Type := DB -> result (A * DB).

Definition ret {A} (a : A) : M A := fun db => Ok (a, db).

Definition raise {A} (e : exn) : M A := fun _ => Raise e.

Definition bind {A B} (m : M A) (k : A -> M B) : M B :=
  fun db =>
    match m db with
    | Ok (a, db') => k a db'
    | Raise e => Raise e
    end.

Definition gets {A} (f : DB -> A) : M A := fun db => Ok (f db, db).

Definition modify (f : DB -> DB) : M unit := fun db => Ok (tt, f db).

Declare Scope monad_scope.
Delimit Scope monad_scope with monad.
Notation "x <- m ;; k" := (bind m (fun x => k))
  (at level 61, m at next level, right associativity) : monad_scope.
Notation "m ;; k" := (bind m (fun _ => k))
  (at level 61, right associativity) : monad_scope.
Open Scope monad_scope.

(** ** Python helpers *)

(** [s in l] for a list of strings. *)
Definition mem (s : string) (l : list string) : bool :=
  existsb (String.eqb s) l.

(** [f"{ip}"] for [ip : Optional[str]]. *)
Definition format_opt (v : option string) : string :=
  match v with
  | Some s => s
  | None => "None"
  end.

(** ** SQL statements *)

(** [SELECT cidr FROM networks WHERE id = ?] followed by [fetchone()]. *)
Definition select_cidr (network_id : string) : M (option string) :=
  gets (fun db =>
    option_map n_cidr (find (fun n => n_id n =? network_id) (networks db))).

(** [SELECT ip FROM peers WHERE network_id = ?] followed by [fetchall()]. *)
Definition ip_rows (network_id : string) (db : DB) : list (option string) :=
  map p_ip (filter (fun p => p_network_id p =? network_id) (peers db)).

Definition select_ips (network_id : string) : M (list (option string)) :=
  gets (ip_rows network_id).

(** [INSERT INTO networks]: the primary key and [name ... UNIQUE].  When
    both would be violated SQLite reports the constraint on [name]. *)
Definition insert_network (row : NetworkRow) : M unit :=
  fun db =>
    if existsb (fun n => n_name n =? n_name row) (networks db) then
      Raise (IntegrityError "UNIQUE constraint failed: networks.name")
    else if existsb (fun n => n_id n =? n_id row) (networks db) then
      Raise (IntegrityError "UNIQUE constraint failed: networks.id")
    else
      Ok (tt, {| networks := (networks db ++ [row])%list; peers := peers db |}).

(** [INSERT INTO peers]: the primary key and [UNIQUE(network_id, name)],
    the latter reported when both would be violated. *)
Definition insert_peer (row : PeerRow) : M unit :=
  fun db =>
    if existsb (fun p => (p_network_id p =? p_network_id row)
                         && (p_name p =? p_name row)) (peers db) then
      Raise (IntegrityError
               "UNIQUE constraint failed: peers.network_id, peers.name")
    else if existsb (fun p => p_id p =? p_id row) (peers db) then
      Raise (IntegrityError "UNIQUE constraint failed: peers.id")
    else
      Ok (tt, {| networks := networks db; peers := (peers db ++ [row])%list |}).

Definition set_peer_count (c : Z) (n : NetworkRow) : NetworkRow :=
  {| n_id := n_id n; n_name := n_name n; n_cidr := n_cidr n;
     n_description := n_description n; n_created_at := n_created_at n;
     n_peer_count := c |}.

(** The largest value of SQLite's 64-bit INTEGER, the type of
    [peer_count].  Counters are modelled as integers; adding 1 to a stored
    [MAX_INTEGER] gives a REAL in SQLite, so statements about the exact
    value after an increment are made of counters below it. *)
Definition MAX_INTEGER : Z := 9223372036854775807.

(** [UPDATE networks SET peer_count = peer_count + 1 WHERE id = ?] *)
Definition incremented (network_id : string) (nets : list NetworkRow)
  : list NetworkRow :=
  map (fun n => if n_id n =? network_id
                then set_peer_count (n_peer_count n + 1) n else n) nets.

Definition increment_peer_count (network_id : string) : M unit :=
  modify (fun db =>
    {| networks := incremented network_id (networks db);
       peers := peers db |}).

(** [UPDATE networks SET peer_count = peer_count - 1
     WHERE id = ? AND peer_count > 0] *)
Definition decremented (network_id : string) (nets : list NetworkRow)
  : list NetworkRow :=
  map (fun n => if (n_id n =? network_id) && (0 <? n_peer_count n)%Z
                then set_peer_count (n_peer_count n - 1) n else n) nets.

Definition decrement_peer_count (network_id : string) : M unit :=
  modify (fun db =>
    {| networks := decremented network_id (networks db);
       peers := peers db |}).

(** [DELETE FROM peers WHERE network_id = ? AND name = ?] *)
Definition without_peer (network_id peer_name : string) (l : list PeerRow)
  : list PeerRow :=
  filter (fun p => negb ((p_network_id p =? network_id)
                         && (p_name p =? peer_name))) l.

Definition delete_peer (network_id peer_name : string) : M unit :=
  modify (fun db =>
    {| networks := networks db;
       peers := without_peer network_id peer_name (peers db) |}).

(** [SELECT groups FROM peers WHERE name = ?] followed by [fetchone()]. *)
Definition select_groups (peer_name : string)
  : M (option (option (list string))) :=
  gets (fun db =>
    option_map p_groups (find (fun p => p_name p =? peer_name) (peers db))).

Definition set_groups (g : option (list string)) (p : PeerRow) : PeerRow :=
  {| p_id := p_id p; p_network_id := p_network_id p; p_name := p_name p;
     p_ip := p_ip p; p_public_key := p_public_key p;
     p_allowed_ips := p_allowed_ips p; p_endpoint := p_endpoint p;
     p_last_handshake := p_last_handshake p; p_status := p_status p;
     p_groups := g |}.

(** [UPDATE peers SET groups = ? WHERE name = ?] *)
Definition with_groups (peer_name : string) (g : list string)
    (l : list PeerRow) : list PeerRow :=
  map (fun p => if p_name p =? peer_name then set_groups (Some g) p else p) l.

Definition update_groups (g : list string) (peer_name : string) : M unit :=
  modify (fun db =>
    {| networks := networks db;
       peers := with_groups peer_name g (peers db) |}).

(** [SELECT COUNT( * ) FROM peers WHERE status = 'connected'] *)
Definition count_connected : M Z :=
  gets (fun db =>
    Z.of_nat (List.length (filter (fun p => p_status p =? "connected") (peers db)))).

(** ** The manager's methods *)

Section Manager.
Context {lib : Ipaddress}.

(** [create_network], lines 108-128. *)
Definition create_network (name cidr description : string)
    (uuid4 now : string) : M string :=
  match ip_network cidr with
  | Raise (ValueError _) => raise (ValueError ("Invalid CIDR: " ++ cidr))
  | Raise e => raise e
  | Ok _ =>
      let network_id := uuid4 in
      insert_network {| n_id := network_id; n_name := name; n_cidr := cidr;
                        n_description := description; n_created_at := now;
                        n_peer_count := 0 |} ;;
      ret network_id
  end.

(** The set comprehension of line 146; its filter [if row[0]] drops NULL
    and the empty string.  The source builds a set and only tests
    membership in it, so a list stands for it. *)
Definition existing_ips (rows : list (option string)) : list string :=
  flat_map (fun row => match row with
                       | Some s => if s =? "" then [] else [s]
                       | None => []
                       end) rows.

(** The loop of lines 148-152: the first host whose text is not taken, or
    [ip] left as it was ([None]) when the loop runs to its end. *)
Definition first_free (network : IPNetwork) (taken : list string)
  : option string :=
  option_map str_address
    (find (fun candidate => negb (mem (str_address candidate) taken))
          (hosts network)).

(** The row [add_peer] inserts, lines 158-174: the fields of the [Peer]
    object, NULL for [endpoint] and [last_handshake], and [json.dumps([])]
    for [groups]. *)
Definition new_peer_row (network_id peer_id name : string)
    (ip : option string) (public_key : string) : PeerRow :=
  {| p_id := peer_id; p_network_id := network_id; p_name := name;
     p_ip := ip; p_public_key := public_key;
     p_allowed_ips := format_opt ip ++ "/32";
     p_endpoint := None; p_last_handshake := None;
     p_status := "disconnected"; p_groups := Some [] |}.

(** [add_peer], lines 130-182. *)
Definition add_peer (network_id name : string) (ip : option string)
    (uuid4 public_key : string) : M string :=
  result <- select_cidr network_id ;;
  match result with
  | None => raise (ValueError ("Network " ++ network_id ++ " not found"))
  | Some cidr =>
      ip <- match ip with
            | None =>
                match ip_network cidr with
                | Raise e => raise e
                | Ok network =>
                    rows <- select_ips network_id ;;
                    ret (first_free network (existing_ips rows))
                end
            | Some _ => ret ip
            end ;;
      let peer_id := uuid4 in
      insert_peer (new_peer_row network_id peer_id name ip public_key) ;;
      increment_peer_count network_id ;;
      ret peer_id
  end.

(** [remove_peer], lines 184-195. *)
Definition remove_peer (network_id peer_name : string) : M unit :=
  delete_peer network_id peer_name ;;
  decrement_peer_count network_id.

Record Status : Type := mkStatus {
  st_networks : list NetworkRow;
  st_connected_peers : Z;
  st_total_peers : Z;
  st_timestamp : string
}.

(** [get_status], lines 229-249. *)
Definition get_status (now : string) : M Status :=
  nets <- gets networks ;;
  connected <- count_connected ;;
  ret {| st_networks := nets;
         st_connected_peers := connected;
         st_total_peers := fold_right Z.add 0%Z (map n_peer_count nets);
         st_timestamp := now |}.

Definition VALID_GROUPS : list string :=
  ["admin"; "workers"; "sensors"; "public"; "internal"].

(** [assign_group], lines 308-328. *)
Definition assign_group (peer_name group : string) : M unit :=
  if negb (mem group VALID_GROUPS) then
    raise (ValueError ("Invalid group: " ++ group))
  else
    result <- select_groups peer_name ;;
    match result with
    | None => raise (ValueError ("Peer " ++ peer_name ++ " not found"))
    | Some stored =>
        let groups := match stored with Some g => g | None => [] end in
        let groups := if negb (mem group groups)
                      then (groups ++ [group])%list else groups in
        update_groups groups peer_name
    end.

(** ** Sequences of calls *)

Inductive call : Type :=
| CreateNetwork (name cidr description uuid4 now : string)
| AddPeer (network_id name : string) (ip : option string)
          (uuid4 public_key : string)
| RemovePeer (network_id peer_name : string)
| AssignGroup (peer_name group : string).

(** The database after a call; a call that raises leaves it unchanged. *)
Definition exec (c : call) (db : DB) : DB :=
  let keep {A} (r : result (A * DB)) :=
    match r with Ok (_, db') => db' | Raise _ => db end in
  match c with
  | CreateNetwork name cidr description uuid4 now =>
      keep (create_network name cidr description uuid4 now db)
  | AddPeer network_id name ip uuid4 public_key =>
      keep (add_peer network_id name ip uuid4 public_key db)
  | RemovePeer network_id peer_name =>
      keep (remove_peer network_id peer_name db)
  | AssignGroup peer_name group =>
      keep (assign_group peer_name group db)
  end.

Definition exec_all (cs : list call) (db : DB) : DB :=
  fold_left (fun db c => exec c db) cs db.

(** ** Construction *)

Definition PREDEFINED_NETWORK : string := "BlackRoad-Pi".

Definition PREDEFINED_PEERS : list string :=
  ["aria64"; "alice"; "blackroad-pi"; "macbook"].

(** [str(n)] for a natural number. *)
Definition str_nat (n : nat) : string := NilZero.string_of_uint (Nat.to_uint n).

(** [enumerate(l)] *)
Definition enumerate {A} (l : list A) : list (nat * A) :=
  combine (seq 0 (List.length l)) l.

(** The calls [_populate_defaults] makes, lines 86-106: none when the
    predefined network is stored, otherwise one [create_network] and one
    [add_peer] with the explicit address [10.0.0.(i + 2)] for the [i]-th
    predefined peer. *)
Definition populate_defaults (network_uuid now : string)
    (peer_uuid public_key : nat -> string) (db : DB) : list call :=
  if existsb (fun n => n_name n =? PREDEFINED_NETWORK) (networks db) then []
  else
    CreateNetwork PREDEFINED_NETWORK "10.0.0.0/8" "BlackRoad Pi mesh network"
                  network_uuid now
    :: map (fun '(i, peer_name) =>
              AddPeer network_uuid peer_name
                      (Some ("10.0.0." ++ str_nat (i + 2)))
                      (peer_uuid i) (public_key i))
           (enumerate PREDEFINED_PEERS).

(** ** Vocabulary of the properties *)

(** What one call can do to the database. *)
Inductive effect (db : DB) : call -> DB -> Prop :=
| effect_none c : effect db c db
| effect_create name cidr description uuid4 now :
    effect db (CreateNetwork name cidr description uuid4 now)
      {| networks :=
           (networks db
            ++ [{| n_id := uuid4; n_name := name; n_cidr := cidr;
                   n_description := description; n_created_at := now;
                   n_peer_count := 0 |}])%list;
         peers := peers db |}
| effect_add_explicit network_id name s uuid4 public_key :
    effect db (AddPeer network_id name (Some s) uuid4 public_key)
      {| networks := incremented network_id (networks db);
         peers := (peers db
                   ++ [new_peer_row network_id uuid4 name (Some s)
                                    public_key])%list |}
| effect_add_auto network_id name uuid4 public_key network :
    effect db (AddPeer network_id name None uuid4 public_key)
      {| networks := incremented network_id (networks db);
         peers :=
           (peers db
            ++ [new_peer_row network_id uuid4 name
                  (first_free network (existing_ips (ip_rows network_id db)))
                  public_key])%list |}
| effect_remove network_id peer_name :
    effect db (RemovePeer network_id peer_name)
      {| networks := decremented network_id (networks db);
         peers := without_peer network_id peer_name (peers db) |}
| effect_assign peer_name group g :
    effect db (AssignGroup peer_name group)
      {| networks := networks db;
         peers := with_groups peer_name g (peers db) |}.

(** Every stored [peer_count] is non-negative. *)
Definition counts_nonneg (db : DB) : Prop :=
  forall n, In n (networks db) -> (0 <= n_peer_count n)%Z.

(** The IPs held in a network: the non-NULL [ip] fields of its peer rows,
    in row order. *)
Definition held_in (network_id : string) (l : list PeerRow) : list string :=
  flat_map (fun v => match v with Some s => [s] | None => [] end)
           (map p_ip (filter (fun p => p_network_id p =? network_id) l)).

Definition held_ips (network_id : string) (db : DB) : list string :=
  held_in network_id (peers db).

(** No two peer rows of one network hold the same IP. *)
Definition ip_unique (db : DB) : Prop :=
  forall network_id, NoDup (held_ips network_id db).


End Manager.

(** ** An implementation of [Ipaddress] for IPv4

    The IPv4 side of the library for the notations ["a.b.c.d"] and
    ["a.b.c.d/len"]; it is the implementation the worked examples run on.
    Netmask notation and IPv6 are left to other implementations. *)

Module V4.

(** [s.split(sep)] for a one-character separator. *)
Fixpoint split (sep : ascii) (s : string) : list string :=
  match s with
  | EmptyString => [EmptyString]
  | String c s' =>
      if Ascii.eqb c sep then EmptyString :: split sep s'
      else match split sep s' with
           | w :: ws => String c w :: ws
           | [] => [String c EmptyString]
           end
  end.

Definition digit (c : ascii) : option N :=
  let n := N_of_ascii c in
  if ((48 <=? n) && (n <=? 57))%N then Some (n - 48)%N else None.

Fixpoint int_of_digits (acc : N) (s : string) : option N :=
  match s with
  | EmptyString => Some acc
  | String c s' =>
      match digit c with
      | Some d => int_of_digits (10 * acc + d)%N s'
      | None => None
      end
  end.

(** [_parse_octet]: one to three decimal digits, no leading zero, at most
    255. *)
Definition parse_octet (s : string) : option N :=
  match s with
  | EmptyString => None
  | String c s' =>
      if (3 <? String.length s)%nat then None
      else if Ascii.eqb c "0" && negb (s' =? "") then None
      else match int_of_digits 0 s with
           | Some n => if (n <=? 255)%N then Some n else None
           | None => None
           end
  end.

Definition ip_int_from_string (s : string) : option N :=
  match map parse_octet (split "." s) with
  | [Some a; Some b; Some c; Some d] =>
      Some (((a * 256 + b) * 256 + c) * 256 + d)%N
  | _ => None
  end.

Definition prefix_from_prefix_string (s : string) : option N :=
  match s with
  | EmptyString => None
  | _ => match int_of_digits 0 s with
         | Some p => if (p <=? 32)%N then Some p else None
         | None => None
         end
  end.

Definition ALL_ONES : N := (2 ^ 32 - 1)%N.

Definition netmask (p : N) : N := N.lxor ALL_ONES (N.shiftr ALL_ONES p).

Definition ip_network (address : string) : result IPNetwork :=
  let invalid :=
    Raise (ValueError ("'" ++ address
                       ++ "' does not appear to be an IPv4 or IPv6 network")) in
  match split "/" address with
  | addr :: rest =>
      let prefix := match rest with
                    | [] => Some 32%N
                    | [mask] => prefix_from_prefix_string mask
                    | _ => None
                    end in
      match ip_int_from_string addr, prefix with
      | Some a, Some p =>
          if (N.land a (netmask p) =? a)%N then Ok (mkNetwork IPv4 a p)
          else Raise (ValueError (address ++ " has host bits set"))
      | _, _ => invalid
      end
  | [] => invalid
  end.

Definition string_of_N (n : N) : string :=
  NilZero.string_of_uint (N.to_uint n).

(** [str(IPv4Address(n))]: the four bytes in decimal, joined by dots. *)
Definition str (a : IPAddress) : string :=
  let n := addr_int a in
  string_of_N ((n / 2 ^ 24) mod 256)%N ++ "."
  ++ string_of_N ((n / 2 ^ 16) mod 256)%N ++ "."
  ++ string_of_N ((n / 2 ^ 8) mod 256)%N ++ "."
  ++ string_of_N (n mod 256)%N.

Lemma append_cons_nonempty (s t : string) (c : ascii) :
  s ++ String c t <> "".
Proof. destruct s; discriminate. Qed.

Lemma str_nonempty (a : IPAddress) : str a <> "".
Proof. unfold str. apply append_cons_nonempty. Qed.

End V4.

Definition ipaddress_v4 : Ipaddress :=
  {| ip_network := V4.ip_network;
     str_address := V4.str;
     str_address_nonempty := V4.str_nonempty |}.

(** ** The worked example: network "Lab" on 10.0.0.0/30 *)

(** The database after [InnernetManager()] on a new store. *)
Definition manager_db : DB :=
  exec_all (lib := ipaddress_v4)
    (populate_defaults "net-pi" "2024-01-01T00:00:00"
       (fun i => "peer-pi-" ++ str_nat i) (fun i => "key-pi-" ++ str_nat i)
       empty_db)
    empty_db.

Definition lab_create : call :=
  CreateNetwork "Lab" "10.0.0.0/30" "" "net-lab" "2024-01-02T00:00:00".

Definition lab_add (name : string) (ip : option string) : call :=
  AddPeer "net-lab" name ip ("peer-" ++ name) ("key-" ++ name).

Definition run_v4 (cs : list call) : DB :=
  exec_all (lib := ipaddress_v4) cs manager_db.

(** With "Lab" created; with peer "a"; with peers "a" and "b". *)
Definition lab_db : DB := run_v4 [lab_create].

Definition lab_db_a : DB := run_v4 [lab_create; lab_add "a" None].

Definition lab_db_ab : DB :=
  run_v4 [lab_create; lab_add "a" None; lab_add "b" None].

(** The peer rows of one network and its stored [peer_count]. *)
Definition peers_of (network_id : string) (db : DB) : list PeerRow :=
  filter (fun p => p_network_id p =? network_id) (peers db).

Definition peer_count_of (network_id : string) (db : DB) : option Z :=
  option_map n_peer_count
    (find (fun n => n_id n =? network_id) (networks db)).

(** Calls on a new store: construction, then "Lab" with peers "a" and "b",
    "a" removed again, and "alice" put in a group. *)
Definition demo_calls : list call :=
  let bootstrap :=
    populate_defaults "net-pi" "2024-01-01T00:00:00"
      (fun i => "peer-pi-" ++ str_nat i) (fun i => "key-pi-" ++ str_nat i)
      empty_db in
  (bootstrap
   ++ [lab_create; lab_add "a" None; lab_add "b" None;
       RemovePeer "net-lab" "a"; AssignGroup "alice" "admin";
       AssignGroup "alice" "admin"])%list.

(** A peer "alice" in each of two networks, the first in group "admin". *)
Definition twins_db : DB :=
  run_v4 [AssignGroup "alice" "admin"; lab_create; lab_add "alice" None].

(** "Lab" with peer "b" added first, and then "a". *)
Definition lab_db_b : DB := run_v4 [lab_create; lab_add "b" None].

Definition lab_db_ba : DB :=
  run_v4 [lab_create; lab_add "b" None; lab_add "a" None].


(** "Lab" after a third peer "c" was added to its two hosts. *)
Definition lab_db_abc : DB :=
  run_v4 [lab_create; lab_add "a" None; lab_add "b" None; lab_add "c" None].

(** ** The listing, probing and reporting methods *)

(** [json.loads(peer['groups']) if peer['groups'] else []] *)
Definition groups_of (p : PeerRow) : list string :=
  match p_groups p with
  | Some g => g
  | None => []
  end.

(** Rows in the order of their names, the binary order of SQLite's text
    comparison: an insertion sort.  It is the order of [ORDER BY name], and
    the order in which the index of UNIQUE(network_id, name) yields the
    rows of one network. *)
Fixpoint insert_by_name (p : PeerRow) (l : list PeerRow) : list PeerRow :=
  match l with
  | [] => [p]
  | q :: l' => if String.leb (p_name p) (p_name q) then p :: q :: l'
               else q :: insert_by_name p l'
  end.

Definition order_by_name (l : list PeerRow) : list PeerRow :=
  fold_right insert_by_name [] l.

(** [list_peers], lines 283-306.  [if network_id:] and [if group:] test
    truthiness, so the empty string filters as little as [None].
    [SELECT * FROM peers] scans the table, in insertion order.
    [SELECT * FROM peers WHERE network_id = ?] is answered through the
    index of UNIQUE(network_id, name), so the rows of the network come in
    the order of their names. *)
Definition list_peers (network_id group : option string) : M (list PeerRow) :=
  rows <- match network_id with
          | Some nid =>
              if nid =? "" then gets peers
              else gets (fun db => order_by_name (peers_of nid db))
          | None => gets peers
          end ;;
  match group with
  | Some g =>
      if g =? "" then ret rows
      else ret (filter (fun peer => mem g (groups_of peer)) rows)
  | None => ret rows
  end.

Record PingResult : Type := mkPingResult {
  pr_peer : string;
  pr_ip : option string;
  pr_reachable : bool;
  pr_latency_ms : option Z;
  pr_timestamp : string
}.

(** The row written by lines 269-272. *)
Definition set_connected (last_handshake : string) (p : PeerRow) : PeerRow :=
  {| p_id := p_id p; p_network_id := p_network_id p; p_name := p_name p;
     p_ip := p_ip p; p_public_key := p_public_key p;
     p_allowed_ips := p_allowed_ips p; p_endpoint := p_endpoint p;
     p_last_handshake := Some last_handshake; p_status := "connected";
     p_groups := p_groups p |}.

(** [UPDATE peers SET status = 'connected', last_handshake = ?
     WHERE id = ?] *)
Definition mark_connected (peer_id last_handshake : string) : M unit :=
  modify (fun db =>
    {| networks := networks db;
       peers := map (fun p => if p_id p =? peer_id
                              then set_connected last_handshake p else p)
                    (peers db) |}).

(** [ping_peer], lines 251-281.  [hash] is the value of
    [hash(peer_name)], [handshake] and [now] the two readings of the
    clock; [%] is Python's, whose result has the sign of the divisor. *)
Definition ping_peer (peer_name : string) (hash : Z)
    (handshake now : string) : M PingResult :=
  result <- gets (fun db =>
              find (fun p => p_name p =? peer_name) (peers db)) ;;
  match result with
  | None => raise (ValueError ("Peer " ++ peer_name ++ " not found"))
  | Some row =>
      let peer_id := p_id row in
      let ip := p_ip row in
      let is_reachable := negb (hash mod 3 =? 0)%Z in
      (if is_reachable then mark_connected peer_id handshake else ret tt) ;;
      ret {| pr_peer := peer_name;
             pr_ip := ip;
             pr_reachable := is_reachable;
             pr_latency_ms := if is_reachable
                              then Some (hash mod 100 + 5)%Z else None;
             pr_timestamp := now |}
  end.

Definition newline : string := String (ascii_of_nat 10) EmptyString.

(** The join of lines 200-205, restricted to one peer name: every peer row
    of that name paired with every network row it references, here in the
    order of the peer table.  SQLite may produce qualifying rows in another
    order; what is proved of [generate_config] concerns the cases where
    none or, the keys being in force, a single row qualifies. *)
Definition joined (peer_name : string) (db : DB)
  : list (PeerRow * NetworkRow) :=
  flat_map (fun p =>
              map (pair p)
                  (filter (fun n => n_id n =? p_network_id p) (networks db)))
           (filter (fun p => p_name p =? peer_name) (peers db)).

(** The text of lines 215-226. *)
Definition config_text (ip : option string)
    (private_key public_key cidr : string) : string :=
  "[Interface]" ++ newline
  ++ "Address = " ++ format_opt ip ++ "/24" ++ newline
  ++ "PrivateKey = " ++ private_key ++ newline
  ++ "ListenPort = 51820" ++ newline
  ++ "DNS = 8.8.8.8, 8.8.4.4" ++ newline
  ++ newline
  ++ "[Peer]" ++ newline
  ++ "PublicKey = " ++ public_key ++ newline
  ++ "AllowedIPs = " ++ cidr ++ newline
  ++ "Endpoint = 10.0.0.1:51820" ++ newline
  ++ "PersistentKeepalive = 25" ++ newline.

(** [generate_config], lines 197-227; [private_key] is the freshly drawn
    mock key. *)
Definition generate_config (peer_name private_key : string) : M string :=
  result <- gets (fun db => hd_error (joined peer_name db)) ;;
  match result with
  | None => raise (ValueError ("Peer " ++ peer_name ++ " not found"))
  | Some (p, n) =>
      ret (config_text (p_ip p) private_key (p_public_key p) (n_cidr n))
  end.

(** *** The ASCII map *)

(** Texts are held as their UTF-8 bytes; [len] counts the characters, that
    is the bytes that do not continue a character. *)
Definition is_continuation (c : ascii) : bool :=
  (N.land (N_of_ascii c) 192 =? 128)%N.

Fixpoint len (s : string) : nat :=
  match s with
  | EmptyString => 0
  | String c s' => (if is_continuation c then 0 else 1) + len s'
  end.

Fixpoint spaces (n : nat) : string :=
  match n with
  | O => EmptyString
  | S n' => String " " (spaces n')
  end.

(** [f"{s:<width}"] for a string [s]. *)
Definition ljust (width : nat) (s : string) : string :=
  s ++ spaces (width - len s).

(** The outcome of a formatting that may hit [None] with a width, which
    raises [TypeError]. *)
Inductive formatted (A : Type) : Type :=
| Formatted (a : A)
| TypeError (msg : string).

Arguments Formatted {A} a.
Arguments TypeError {A} msg.

(** One pass of the loop of lines 350-353. *)
Definition peer_line (p : PeerRow) : formatted string :=
  let status_icon := if p_status p =? "connected" then "● " else "○ " in
  match p_ip p with
  | None =>
      TypeError "unsupported format string passed to NoneType.__format__"
  | Some ip =>
      Formatted ("║ " ++ status_icon ++ ljust 16 (p_name p) ++ " "
                 ++ ljust 18 ip ++ " │")
  end.

Fixpoint peer_lines (l : list PeerRow) : formatted (list string) :=
  match l with
  | [] => Formatted []
  | p :: l' =>
      match peer_line p with
      | TypeError msg => TypeError msg
      | Formatted line =>
          match peer_lines l' with
          | TypeError msg => TypeError msg
          | Formatted lines => Formatted (line :: lines)
          end
      end
  end.

(** The list [lines] of lines 344-355. *)
Definition map_lines (network_id : string) (db : DB)
  : formatted (list string) :=
  let rows := order_by_name (peers_of network_id db) in
  let network := find (fun n => n_id n =? network_id) (networks db) in
  let title := match network with
               | Some n => n_name n
               | None => "Unknown"
               end in
  match peer_lines rows with
  | TypeError msg => TypeError msg
  | Formatted body =>
      Formatted
        (["╔════════════════════════════════════════╗";
          ("║ Network: " ++ ljust 31 title ++ " ║")%string;
          "╠════════════════════════════════════════╣"]
         ++ body
         ++ ["╚════════════════════════════════════════╝"])%list
  end.

(** [export_network_map], lines 330-357.  It only reads, so it is a
    function of the database. *)
Definition export_network_map (network_id : string) (db : DB)
  : formatted string :=
  match map_lines network_id db with
  | TypeError msg => TypeError msg
  | Formatted lines => Formatted (String.concat newline lines)
  end.

(** ** Construction, call by call *)

(** A procedure that spans several transactions: what was committed
    before an exception stays. *)
Definition T (A : Type) : Type := DB -> result A * DB.

Definition commit {A} (m : M A) : T A :=
  fun db =>
    match m db with
    | Ok (a, db') => (Ok a, db')
    | Raise e => (Raise e, db)
    end.

Definition and_then {A B} (m : T A) (k : A -> T B) : T B :=
  fun db =>
    match m db with
    | (Ok a, db') => k a db'
    | (Raise e, db') => (Raise e, db')
    end.

Section Construction.
Context {lib : Ipaddress}.
Variables (network_uuid now : string) (peer_uuid public_key : nat -> string).

(** The loop of lines 104-106. *)
Fixpoint add_default_peers (network_id : string) (l : list (nat * string))
  : T unit :=
  match l with
  | [] => fun db => (Ok tt, db)
  | (i, peer_name) :: rest =>
      and_then
        (commit (add_peer network_id peer_name
                          (Some ("10.0.0." ++ str_nat (i + 2)))
                          (peer_uuid i) (public_key i)))
        (fun _ => add_default_peers network_id rest)
  end.

(** [_populate_defaults], lines 86-106. *)
Definition _populate_defaults : T unit :=
  fun db =>
    if existsb (fun n => n_name n =? PREDEFINED_NETWORK) (networks db)
    then (Ok tt, db)
    else
      and_then
        (commit (create_network PREDEFINED_NETWORK "10.0.0.0/8"
                                "BlackRoad Pi mesh network"
                                network_uuid now))
        (fun network_id =>
           add_default_peers network_id (enumerate PREDEFINED_PEERS))
        db.

End Construction.

(** ** Vocabulary of the invariants *)

(** The keys the schema declares: [id] in both tables, [name] in
    [networks], and [(network_id, name)] in [peers]. *)
Definition keys_unique (db : DB) : Prop :=
  NoDup (map n_id (networks db))
  /\ NoDup (map n_name (networks db))
  /\ NoDup (map p_id (peers db))
  /\ NoDup (map (fun p => (p_network_id p, p_name p)) (peers db)).

(** Every peer row refers to a stored network. *)
Definition refs_valid (db : DB) : Prop :=
  forall p, In p (peers db) -> In (p_network_id p) (map n_id (networks db)).

(** The number of peer rows of a network. *)
Definition row_count (network_id : string) (db : DB) : Z :=
  Z.of_nat (List.length (peers_of network_id db)).

Definition counts_bounded (db : DB) : Prop :=
  forall n, In n (networks db) ->
            (n_peer_count n <= row_count (n_id n) db)%Z.

Definition counts_match (db : DB) : Prop :=
  forall n, In n (networks db) -> n_peer_count n = row_count (n_id n) db.

(** Does a [remove_peer] call name a stored peer?  Other calls pass. *)
Definition hits (c : call) (db : DB) : bool :=
  match c with
  | RemovePeer network_id peer_name =>
      existsb (fun p => (p_network_id p =? network_id)
                        && (p_name p =? peer_name)) (peers db)
  | _ => true
  end.

(** Every stored group list is duplicate-free and drawn from
    [VALID_GROUPS]. *)
Definition groups_valid (db : DB) : Prop :=
  forall p, In p (peers db) ->
            NoDup (groups_of p)
            /\ (forall g, In g (groups_of p) -> In g VALID_GROUPS).

(** The rows a [DELETE ... WHERE network_id = ? AND name = ?] removes. *)
Definition doomed (network_id peer_name : string) (l : list PeerRow)
  : list PeerRow :=
  filter (fun p => (p_network_id p =? network_id) && (p_name p =? peer_name))
         l.

(** A row after a ping: as it was, or marked connected. *)
Definition pinged (handshake : string) (p p' : PeerRow) : Prop :=
  p' = p \/ p' = set_connected handshake p.

(** The order of [ORDER BY name]. *)
Definition name_le (p q : PeerRow) : Prop :=
  String.leb (p_name p) (p_name q) = true.

Definition name_lt (p q : PeerRow) : Prop :=
  String.ltb (p_name p) (p_name q) = true.

Section Steps.
Context {lib : Ipaddress}.

(** What one call does to the database, with what its success implies. *)
Inductive step (db : DB) : call -> DB -> Prop :=
| step_raise c : step db c db
| step_create name cidr description uuid4 now :
    ~ In uuid4 (map n_id (networks db)) ->
    ~ In name (map n_name (networks db)) ->
    step db (CreateNetwork name cidr description uuid4 now)
      {| networks :=
           (networks db
            ++ [{| n_id := uuid4; n_name := name; n_cidr := cidr;
                   n_description := description; n_created_at := now;
                   n_peer_count := 0 |}])%list;
         peers := peers db |}
| step_add network_id name ip ip' uuid4 public_key :
    In network_id (map n_id (networks db)) ->
    ~ In uuid4 (map p_id (peers db)) ->
    ~ In (network_id, name)
         (map (fun p => (p_network_id p, p_name p)) (peers db)) ->
    step db (AddPeer network_id name ip uuid4 public_key)
      {| networks := incremented network_id (networks db);
         peers := (peers db
                   ++ [new_peer_row network_id uuid4 name ip'
                                    public_key])%list |}
| step_remove network_id peer_name :
    step db (RemovePeer network_id peer_name)
      {| networks := decremented network_id (networks db);
         peers := without_peer network_id peer_name (peers db) |}
| step_assign peer_name group p0 :
    In group VALID_GROUPS ->
    In p0 (peers db) ->
    step db (AssignGroup peer_name group)
      {| networks := networks db;
         peers := with_groups peer_name
                    (if negb (mem group (groups_of p0))
                     then (groups_of p0 ++ [group])%list else groups_of p0)
                    (peers db) |}.



(** Does every [remove_peer] of the sequence name a peer stored when it is
    called? *)
Fixpoint all_hit (cs : list call) (db : DB) : bool :=
  match cs with
  | [] => true
  | c :: cs' => hits c db && all_hit cs' (exec c db)
  end.

End Steps.

(** * Properties *)

(** ** Helper lemmas *)

Lemma mem_In (s : string) (l : list string) : mem s l = true <-> In s l.
Proof.
  unfold mem. rewrite existsb_exists. split.
  - intros [x [Hin Heq]]. apply String.eqb_eq in Heq. now subst.
  - intros Hin. exists s. split; [assumption | apply String.eqb_refl].
Qed.

Lemma mem_not_In (s : string) (l : list string) : mem s l = false <-> ~ In s l.
Proof.
  rewrite <- mem_In. destruct (mem s l); split; congruence.
Qed.

Lemma existsb_false {A} (f : A -> bool) (l : list A) :
  existsb f l = false <-> (forall x, In x l -> f x = false).
Proof.
  induction l as [|a l IH]; simpl.
  - split; [intros _ x [] | reflexivity].
  - rewrite orb_false_iff, IH. split.
    + intros [Ha Hl] x [<- | Hx]; auto.
    + intros H. split; [apply H; now left | intros x Hx; apply H; now right].
Qed.

Lemma find_none_iff {A} (f : A -> bool) (l : list A) :
  find f l = None <-> (forall x, In x l -> f x = false).
Proof.
  split; [apply find_none |].
  induction l as [|a l IH]; simpl; intros H; [reflexivity |].
  rewrite (H a (or_introl eq_refl)). apply IH. intros x Hx. apply H. now right.
Qed.

Section Properties.
Context {lib : Ipaddress}.

(** ** create_network *)

(** C5.  [create_network] raises [ValueError "Invalid CIDR: ..."] when
    [ip_network] rejects the CIDR; when the CIDR parses and a network of that
    name is already stored, the [UNIQUE] constraint on [networks.name] makes
    the insert raise [sqlite3.IntegrityError]; when the CIDR parses and
    neither the name nor the generated identifier is in the table, a row
    with [peer_count = 0] is appended and the identifier is returned. *)
Theorem create_network_outcomes
    (name cidr description uuid4 now : string) (db : DB) :
  (forall msg, ip_network cidr = Raise (ValueError msg) ->
     create_network name cidr description uuid4 now db
     = Raise (ValueError ("Invalid CIDR: " ++ cidr)))
  /\ (forall net, ip_network cidr = Ok net ->
        (exists n, In n (networks db) /\ n_name n = name) ->
        exists msg,
          create_network name cidr description uuid4 now db
          = Raise (IntegrityError msg))
  /\ (forall net, ip_network cidr = Ok net ->
        (forall n, In n (networks db) -> n_name n <> name) ->
        (forall n, In n (networks db) -> n_id n <> uuid4) ->
        create_network name cidr description uuid4 now db
        = Ok (uuid4,
              {| networks :=
                   (networks db
                    ++ [{| n_id := uuid4; n_name := name; n_cidr := cidr;
                           n_description := description;
                           n_created_at := now; n_peer_count := 0 |}])%list;
                 peers := peers db |})).
Proof.
  unfold create_network. repeat split.
  - intros msg ->. reflexivity.
  - intros net -> [n [Hin Hname]].
    unfold bind, insert_network; simpl.
    assert (Hex : existsb (fun n0 => n_name n0 =? name) (networks db) = true).
    { apply existsb_exists. exists n. split; [assumption |].
      now apply String.eqb_eq. }
    rewrite Hex. eexists; reflexivity.
  - intros net -> Hname Hid.
    unfold bind, insert_network, ret; simpl.
    assert (H1 : existsb (fun n => n_id n =? uuid4) (networks db) = false).
    { apply existsb_false. intros n Hn. apply String.eqb_neq. auto. }
    assert (H2 : existsb (fun n => n_name n =? name) (networks db) = false).
    { apply existsb_false. intros n Hn. apply String.eqb_neq. auto. }
    rewrite H2, H1. reflexivity.
Qed.

(** ** assign_group *)

(** C8.  A group outside [VALID_GROUPS] makes [assign_group] raise
    [ValueError "Invalid group: ..."] whatever the database holds; a group
    inside it raises [ValueError "Peer ... not found"] when no peer row has
    the given name. *)
Theorem assign_group_errors (peer_name group : string) (db : DB) :
  (~ In group VALID_GROUPS ->
     assign_group peer_name group db
     = Raise (ValueError ("Invalid group: " ++ group)))
  /\ (In group VALID_GROUPS ->
      (forall p, In p (peers db) -> p_name p <> peer_name) ->
      assign_group peer_name group db
      = Raise (ValueError ("Peer " ++ peer_name ++ " not found"))).
Proof.
  unfold assign_group. split.
  - intros Hout. apply mem_not_In in Hout. rewrite Hout. reflexivity.
  - intros Hin Hnone. apply mem_In in Hin. rewrite Hin. simpl.
    unfold bind, select_groups, gets.
    assert (Hf : find (fun p => p_name p =? peer_name) (peers db) = None).
    { apply find_none_iff. intros p Hp. apply String.eqb_neq. auto. }
    rewrite Hf. reflexivity.
Qed.

Lemma find_map_preserved {A} (f : A -> bool) (g : A -> A) (l : list A) :
  (forall x, f (g x) = f x) ->
  find f (map g l) = option_map g (find f l).
Proof.
  intros Hfg. induction l as [|a l IH]; simpl; [reflexivity |].
  rewrite Hfg. destruct (f a); [reflexivity | apply IH].
Qed.

Lemma find_some_of_In {A} (f : A -> bool) (l : list A) (x : A) :
  In x l -> f x = true -> exists y, find f l = Some y.
Proof.
  intros Hin Hfx. destruct (find f l) as [y|] eqn:Hf; [now exists y |].
  rewrite (find_none _ _ Hf _ Hin) in Hfx. discriminate.
Qed.

(** The list [assign_group] writes back: [group] appended unless present. *)
Lemma mem_after_append (group : string) (groups : list string) :
  mem group (if negb (mem group groups)
             then (groups ++ [group])%list else groups) = true.
Proof.
  destruct (mem group groups) eqn:Hm; simpl; [assumption |].
  apply mem_In, in_or_app. right. now left.
Qed.

(** C7.  For a valid group and a name some peer row carries, [assign_group]
    succeeds, and running it a second time succeeds and leaves the database
    exactly as the first run left it: every row of that name lists the group
    after one call, and a second call appends nothing. *)
Theorem assign_group_idempotent (peer_name group : string) (db : DB) :
  In group VALID_GROUPS ->
  (exists p, In p (peers db) /\ p_name p = peer_name) ->
  exists db1,
    assign_group peer_name group db = Ok (tt, db1)
    /\ assign_group peer_name group db1 = Ok (tt, db1)
    /\ (forall p, In p (peers db1) -> p_name p = peer_name ->
          exists g, p_groups p = Some g /\ In group g).
Proof.
  intros Hvalid [p [Hin Hname]].
  apply mem_In in Hvalid.
  destruct (find_some_of_In (fun q => p_name q =? peer_name) (peers db) p Hin)
    as [p0 Hfind]; [now apply String.eqb_eq |].
  unfold assign_group. rewrite Hvalid. simpl.
  unfold bind, select_groups, gets. rewrite Hfind. simpl.
  set (stored := match p_groups p0 with Some g => g | None => [] end).
  set (groups := if negb (mem group stored)
                 then (stored ++ [group])%list else stored).
  unfold update_groups, modify, with_groups.
  assert (Hp0 : (p_name p0 =? peer_name) = true)
    by apply (find_some _ _ Hfind).
  assert (Hmem : mem group groups = true) by apply mem_after_append.
  eexists. split; [reflexivity |]. simpl. split.
  - rewrite find_map_preserved
      by (intros x; destruct (p_name x =? peer_name) eqn:E; simpl;
          now rewrite E).
    rewrite Hfind. simpl. rewrite Hp0. simpl. rewrite Hmem. simpl.
    do 3 f_equal. rewrite map_map. apply map_ext.
    intros x. destruct (p_name x =? peer_name) eqn:E; simpl; now rewrite E.
  - intros q Hq Hqname. apply in_map_iff in Hq.
    destruct Hq as [x [Hx _]]. subst q.
    destruct (p_name x =? peer_name) eqn:E.
    + exists groups. split; [reflexivity | now apply mem_In].
    + apply String.eqb_neq in E. contradiction.
Qed.

(** ** get_status *)

Lemma length_filter_count_occ {A} (f : A -> string) (s : string)
    (l : list A) :
  List.length (filter (fun x => f x =? s) l)
  = count_occ string_dec (map f l) s.
Proof.
  induction l as [|a l IH]; simpl; [reflexivity |].
  destruct (String.eqb_spec (f a) s) as [E | E];
    destruct (string_dec (f a) s); try contradiction; simpl; now rewrite IH.
Qed.

Lemma sum_fold_left (l : list Z) :
  fold_right Z.add 0%Z l = fold_left Z.add l 0%Z.
Proof.
  symmetry. apply fold_symmetric; intros; lia.
Qed.

(** C9.  [get_status] returns the database it was given, unchanged,
    together with all network rows, the number of peer rows whose status is
    ["connected"], and the sum of [peer_count] over all network rows. *)
Theorem get_status_reads_only (now : string) (db : DB) :
  exists st,
    get_status now db = Ok (st, db)
    /\ st_networks st = networks db
    /\ st_connected_peers st
       = Z.of_nat (count_occ string_dec (map p_status (peers db)) "connected")
    /\ st_total_peers st = fold_left Z.add (map n_peer_count (networks db)) 0%Z
    /\ st_timestamp st = now.
Proof.
  unfold get_status, bind, count_connected, gets, ret.
  eexists. split; [reflexivity |]. simpl.
  split; [reflexivity |]. split; [| split; [| reflexivity]].
  - f_equal. apply length_filter_count_occ.
  - apply sum_fold_left.
Qed.

(** ** add_peer *)

(** What a successful [add_peer] did. *)
Lemma add_peer_inv (network_id name : string) (ip : option string)
    (uuid4 public_key : string) (db : DB) (peer_id : string) (db' : DB) :
  add_peer network_id name ip uuid4 public_key db = Ok (peer_id, db') ->
  exists n ip',
    find (fun n => n_id n =? network_id) (networks db) = Some n
    /\ match ip with
       | Some _ => ip' = ip
       | None => exists network,
           ip_network (n_cidr n) = Ok network
           /\ ip' = first_free network (existing_ips (ip_rows network_id db))
       end
    /\ peer_id = uuid4
    /\ db' = {| networks := incremented network_id (networks db);
                peers := (peers db
                          ++ [new_peer_row network_id uuid4 name ip'
                                           public_key])%list |}.
Proof.
  unfold add_peer, bind, select_cidr, gets.
  destruct (find (fun n => n_id n =? network_id) (networks db)) as [n|];
    simpl; [| discriminate].
  intros H. exists n.
  assert (Hins : forall ip0,
    match insert_peer (new_peer_row network_id uuid4 name ip0 public_key) db
    with
    | Ok (_, db1) =>
        match increment_peer_count network_id db1 with
        | Ok (_, db2) => ret uuid4 db2
        | Raise e => Raise e
        end
    | Raise e => Raise e
    end = Ok (peer_id, db') ->
    peer_id = uuid4
    /\ db' = {| networks := incremented network_id (networks db);
                peers := (peers db
                          ++ [new_peer_row network_id uuid4 name ip0
                                           public_key])%list |}).
  { intros ip0. unfold insert_peer.
    destruct (existsb _ (peers db)); [discriminate |].
    destruct (existsb _ (peers db)); [discriminate |].
    simpl. unfold ret. intros E. inversion E. split; reflexivity. }
  destruct ip as [s|].
  - exists (Some s). simpl in H. apply Hins in H.
    destruct H as [-> ->]. auto.
  - destruct (ip_network (n_cidr n)) as [network|e] eqn:Hnet;
      [| discriminate].
    simpl in H. unfold select_ips, gets, ret in H. simpl in H.
    apply Hins in H. destruct H as [-> ->].
    eexists. split; [reflexivity |]. split; [| auto].
    exists network. split; reflexivity.
Qed.

(** The row a successful [add_peer] appends, field by field: the address
    is the text supplied, or else the first free host of the network, or
    NULL when no host is free; [allowed_ips] is that text followed by
    ["/32"], and ["None/32"] for the NULL address. *)
Lemma add_peer_stored_row (network_id name : string)
    (ip : option string) (uuid4 public_key : string) (db : DB)
    (peer_id : string) (db' : DB) :
  add_peer network_id name ip uuid4 public_key db = Ok (peer_id, db') ->
  exists ip',
    match ip with
    | Some _ => ip' = ip
    | None => exists n network,
        find (fun n => n_id n =? network_id) (networks db) = Some n
        /\ ip_network (n_cidr n) = Ok network
        /\ ip' = first_free network (existing_ips (ip_rows network_id db))
    end
    /\ peers db'
       = (peers db
          ++ [{| p_id := peer_id; p_network_id := network_id;
                 p_name := name; p_ip := ip'; p_public_key := public_key;
                 p_allowed_ips := match ip' with
                                  | Some s => s ++ "/32"
                                  | None => "None/32"
                                  end;
                 p_endpoint := None; p_last_handshake := None;
                 p_status := "disconnected"; p_groups := Some [] |}])%list.
Proof.
  intros H. apply add_peer_inv in H.
  destruct H as [n [ip' [Hn [Hip [-> ->]]]]].
  exists ip'. split.
  - destruct ip as [s|]; [assumption |].
    destruct Hip as [network [Hnet ->]]. now exists n, network.
  - simpl. unfold new_peer_row. now destruct ip'.
Qed.

(** *** The host enumeration *)








(** *** The assigned set *)

Lemma in_existing_ips (s : string) (rows : list (option string)) :
  In s (existing_ips rows) <-> In (Some s) rows /\ s <> "".
Proof.
  unfold existing_ips. rewrite in_flat_map. split.
  - intros [[t|] [Hrow Hin]]; [| destruct Hin].
    destruct (String.eqb_spec t ""); [destruct Hin |].
    destruct Hin as [<- | []]. auto.
  - intros [Hrow Hne]. exists (Some s). split; [assumption |].
    destruct (String.eqb_spec s ""); [contradiction | now left].
Qed.

Lemma in_ip_rows (v : option string) (network_id : string) (db : DB) :
  In v (ip_rows network_id db)
  <-> exists p, In p (peers db) /\ p_network_id p = network_id /\ p_ip p = v.
Proof.
  unfold ip_rows. rewrite in_map_iff. split.
  - intros [p [Hv Hp]]. apply filter_In in Hp. destruct Hp as [Hp Hn].
    apply String.eqb_eq in Hn. eauto.
  - intros [p [Hp [Hn Hv]]]. exists p. split; [assumption |].
    apply filter_In. split; [assumption | now apply String.eqb_eq].
Qed.

(** A host's text is in the set line 146 builds exactly when some peer row
    of the network holds it. *)
Lemma host_taken_iff (a : IPAddress) (network_id : string) (db : DB) :
  mem (str_address a) (existing_ips (ip_rows network_id db)) = true
  <-> exists p, In p (peers db) /\ p_network_id p = network_id
                /\ p_ip p = Some (str_address a).
Proof.
  rewrite mem_In, in_existing_ips, in_ip_rows. split.
  - intros [H _]. exact H.
  - intros H. split; [exact H | apply str_address_nonempty].
Qed.

(** An [add_peer] without an IP goes through when the network is stored,
    its CIDR parses, and the new identifier and name are not in use. *)
Lemma add_peer_auto_ok (network_id name uuid4 public_key : string)
    (db : DB) (n : NetworkRow) (network : IPNetwork) :
  find (fun n => n_id n =? network_id) (networks db) = Some n ->
  ip_network (n_cidr n) = Ok network ->
  (forall p, In p (peers db) -> p_id p <> uuid4) ->
  (forall p, In p (peers db) -> p_network_id p = network_id ->
             p_name p <> name) ->
  add_peer network_id name None uuid4 public_key db
  = Ok (uuid4,
        {| networks := incremented network_id (networks db);
           peers :=
             (peers db
              ++ [new_peer_row network_id uuid4 name
                    (first_free network
                       (existing_ips (ip_rows network_id db)))
                    public_key])%list |}).
Proof.
  intros Hfind Hparse Hid Hname.
  unfold add_peer, bind, select_cidr, gets. rewrite Hfind. simpl.
  rewrite Hparse. simpl. unfold insert_peer. simpl.
  assert (H1 : existsb (fun p => p_id p =? uuid4) (peers db) = false).
  { apply existsb_false. intros p Hp. apply String.eqb_neq. auto. }
  assert (H2 : existsb (fun p => (p_network_id p =? network_id)
                                 && (p_name p =? name)) (peers db) = false).
  { apply existsb_false. intros p Hp.
    destruct (String.eqb_spec (p_network_id p) network_id); [| reflexivity].
    simpl. apply String.eqb_neq. auto. }
  rewrite H1, H2. reflexivity.
Qed.




(** ** Sequences of calls *)

(** [remove_peer] never raises. *)
Lemma remove_peer_total (network_id peer_name : string) (db : DB) :
  remove_peer network_id peer_name db
  = Ok (tt, {| networks := decremented network_id (networks db);
               peers := without_peer network_id peer_name (peers db) |}).
Proof. reflexivity. Qed.

(** After [remove_peer] the rows left are exactly those that do not match
    the network and name, and each [peer_count] of that network that was
    positive is one lower. *)
Lemma remove_peer_rows (network_id peer_name : string) (db : DB) :
  exists db',
    remove_peer network_id peer_name db = Ok (tt, db')
    /\ (forall p, In p (peers db') <->
                  In p (peers db)
                  /\ ~ (p_network_id p = network_id /\ p_name p = peer_name))
    /\ map n_peer_count (networks db')
       = map (fun n => if (n_id n =? network_id) && (0 <? n_peer_count n)%Z
                       then (n_peer_count n - 1)%Z else n_peer_count n)
             (networks db).
Proof.
  eexists. split; [apply remove_peer_total |]. simpl. split.
  - intros p. unfold without_peer. rewrite filter_In.
    destruct (String.eqb_spec (p_network_id p) network_id);
      destruct (String.eqb_spec (p_name p) peer_name); simpl;
      intuition congruence.
  - unfold decremented. rewrite map_map. apply map_ext. intros n.
    destruct ((n_id n =? network_id) && (0 <? n_peer_count n)%Z); reflexivity.
Qed.

Lemma exec_effect (c : call) (db : DB) : effect db c (exec c db).
Proof.
  destruct c as [name cidr description uuid4 now
                | network_id name ip uuid4 public_key
                | network_id peer_name
                | peer_name group]; unfold exec.
  - unfold create_network.
    destruct (ip_network cidr) as [net | [msg | msg]];
      try apply effect_none.
    unfold bind, insert_network, ret.
    destruct (existsb _ (networks db)); [apply effect_none |].
    destruct (existsb _ (networks db)); [apply effect_none |].
    apply effect_create.
  - destruct (add_peer network_id name ip uuid4 public_key db)
      as [[peer_id db'] | e] eqn:H; [| apply effect_none].
    apply add_peer_inv in H. destruct H as [n [ip' [_ [Hip [_ ->]]]]].
    destruct ip as [s|].
    + subst ip'. apply effect_add_explicit.
    + destruct Hip as [network [_ ->]]. apply effect_add_auto.
  - rewrite remove_peer_total. apply effect_remove.
  - unfold assign_group.
    destruct (mem group VALID_GROUPS); simpl; [| apply effect_none].
    unfold bind, select_groups, gets.
    destruct (find _ (peers db)) as [p|]; simpl; [| apply effect_none].
    apply effect_assign.
Qed.

(** *** peer_count stays non-negative *)

Lemma effect_counts_nonneg (db db' : DB) (c : call) :
  effect db c db' -> counts_nonneg db -> counts_nonneg db'.
Proof.
  unfold counts_nonneg.
  intros [] Hdb n Hn; simpl in Hn; auto.
  - apply in_app_or in Hn. destruct Hn as [Hn | [<- | []]]; simpl; auto; lia.
  - apply in_map_iff in Hn. destruct Hn as [m [<- Hm]].
    specialize (Hdb m Hm). destruct (n_id m =? network_id); simpl; lia.
  - apply in_map_iff in Hn. destruct Hn as [m [<- Hm]].
    specialize (Hdb m Hm). destruct (n_id m =? network_id); simpl; lia.
  - apply in_map_iff in Hn. destruct Hn as [m [<- Hm]].
    specialize (Hdb m Hm).
    destruct (n_id m =? network_id); simpl; [| lia].
    destruct (Z.ltb_spec 0 (n_peer_count m)); simpl; lia.
Qed.

(** Whatever the calls, no [peer_count] ever becomes negative. *)
Lemma exec_all_counts_nonneg (cs : list call) (db : DB) :
  counts_nonneg db -> counts_nonneg (exec_all cs db).
Proof.
  unfold exec_all. revert db.
  induction cs as [|c cs IH]; intros db Hdb; simpl; [assumption |].
  apply IH. exact (effect_counts_nonneg _ _ _ (exec_effect c db) Hdb).
Qed.

(** *** IP uniqueness *)


Lemma held_in_cons (network_id : string) (p : PeerRow) (l : list PeerRow) :
  held_in network_id (p :: l)
  = ((if p_network_id p =? network_id
      then match p_ip p with Some s => [s] | None => [] end
      else []) ++ held_in network_id l)%list.
Proof.
  unfold held_in. simpl.
  destruct (p_network_id p =? network_id); reflexivity.
Qed.






Lemma NoDup_snoc {A} (l : list A) (x : A) :
  NoDup l -> ~ In x l -> NoDup (l ++ [x]).
Proof.
  intros Hl Hx. apply NoDup_app; [assumption | repeat constructor; auto |].
  intros a Ha [<- | []]. contradiction.
Qed.




(** *** Exhaustion *)

(** When every host of the network is held by one of its peers, the loop
    of lines 148-152 ends without a [break], [ip] stays [None], and the
    insert goes ahead: [add_peer] returns normally. *)
Lemma add_peer_exhausted_returns (network_id name uuid4 public_key : string)
    (db : DB) (n : NetworkRow) (network : IPNetwork) :
  find (fun n => n_id n =? network_id) (networks db) = Some n ->
  ip_network (n_cidr n) = Ok network ->
  (forall p, In p (peers db) -> p_id p <> uuid4) ->
  (forall p, In p (peers db) -> p_network_id p = network_id ->
             p_name p <> name) ->
  (forall c, In c (hosts network) ->
             exists p, In p (peers db) /\ p_network_id p = network_id
                       /\ p_ip p = Some (str_address c)) ->
  add_peer network_id name None uuid4 public_key db
  = Ok (uuid4,
        {| networks := incremented network_id (networks db);
           peers := (peers db
                     ++ [new_peer_row network_id uuid4 name None
                                      public_key])%list |}).
Proof.
  intros Hfind Hparse Hid Hname Hfull.
  rewrite (add_peer_auto_ok _ _ _ _ _ _ _ Hfind Hparse Hid Hname).
  unfold first_free.
  replace (find _ (hosts network)) with (@None IPAddress); [reflexivity |].
  symmetry. apply find_none_iff. intros c Hc.
  apply negb_false_iff, host_taken_iff. auto.
Qed.

End Properties.

(** * The worked example *)

Example manager_db_rows :
  map (fun n => (n_id n, n_name n, n_cidr n, n_peer_count n))
      (networks manager_db)
  = [("net-pi", "BlackRoad-Pi", "10.0.0.0/8", 4%Z)]
  /\ map (fun p => (p_name p, p_ip p)) (peers manager_db)
     = [("aria64", Some "10.0.0.2"); ("alice", Some "10.0.0.3");
        ("blackroad-pi", Some "10.0.0.4"); ("macbook", Some "10.0.0.5")].
Proof. split; reflexivity. Qed.

(** The first peer of "Lab" is given 10.0.0.1 and the second 10.0.0.2. *)
Example lab_first_two_addresses :
  map (fun p => (p_name p, p_ip p)) (peers_of "net-lab" lab_db_a)
  = [("a", Some "10.0.0.1")]
  /\ map (fun p => (p_name p, p_ip p)) (peers_of "net-lab" lab_db_ab)
     = [("a", Some "10.0.0.1"); ("b", Some "10.0.0.2")].
Proof. split; reflexivity. Qed.

(** C2.  On the fresh /30 network "Lab" the first two [add_peer] calls
    without an IP store 10.0.0.1 and 10.0.0.2; the third, with both hosts
    taken, does not raise: it returns the new identifier and stores a row
    with NULL [ip] and [allowed_ips] ["None/32"]. *)
Theorem third_add_on_slash30_returns :
  add_peer (lib := ipaddress_v4) "net-lab" "a" None "peer-a" "key-a" lab_db
  = Ok ("peer-a", lab_db_a)
  /\ add_peer (lib := ipaddress_v4) "net-lab" "b" None "peer-b" "key-b"
       lab_db_a
     = Ok ("peer-b", lab_db_ab)
  /\ map p_ip (peers_of "net-lab" lab_db_ab)
     = [Some "10.0.0.1"; Some "10.0.0.2"]
  /\ exists db3,
       add_peer (lib := ipaddress_v4) "net-lab" "c" None "peer-c" "key-c"
         lab_db_ab
       = Ok ("peer-c", db3)
       /\ map p_ip (peers_of "net-lab" db3)
          = [Some "10.0.0.1"; Some "10.0.0.2"; None]
       /\ map p_allowed_ips (peers_of "net-lab" db3)
          = ["10.0.0.1/32"; "10.0.0.2/32"; "None/32"]
       /\ peer_count_of "net-lab" db3 = Some 3%Z.
Proof.
  split; [reflexivity |]. split; [reflexivity |]. split; [reflexivity |].
  eexists. split; [vm_compute; reflexivity |].
  repeat split.
Qed.

(** C10.  On the fresh /30 network "Lab" the rows of the first two peers
    added without an IP carry their addresses 10.0.0.1 and 10.0.0.2 and,
    as [allowed_ips], ["10.0.0.1/32"] and ["10.0.0.2/32"].  The third
    [add_peer], made with both hosts taken, returns and appends a row with
    status ["disconnected"], NULL [endpoint] and [last_handshake] and the
    empty group list like the others, but with NULL [ip] and the
    [allowed_ips] ["None/32"], which is no address followed by ["/32"]. *)
Theorem exhausted_add_peer_stores_none_mask :
  add_peer (lib := ipaddress_v4) "net-lab" "c" None "peer-c" "key-c"
    lab_db_ab
  = Ok ("peer-c", lab_db_abc)
  /\ map (fun p => (p_name p, p_ip p, p_allowed_ips p))
         (peers_of "net-lab" lab_db_abc)
     = [("a", Some "10.0.0.1", "10.0.0.1/32");
        ("b", Some "10.0.0.2", "10.0.0.2/32");
        ("c", None, "None/32")]
  /\ map (fun p => (p_status p, p_endpoint p, p_last_handshake p,
                    p_groups p))
         (peers_of "net-lab" lab_db_abc)
     = [("disconnected", None, None, Some []);
        ("disconnected", None, None, Some []);
        ("disconnected", None, None, Some [])]
  /\ peers lab_db_abc
     = (peers lab_db_ab
        ++ [{| p_id := "peer-c"; p_network_id := "net-lab"; p_name := "c";
               p_ip := None; p_public_key := "key-c";
               p_allowed_ips := "None/32";
               p_endpoint := None; p_last_handshake := None;
               p_status := "disconnected"; p_groups := Some [] |}])%list.
Proof. repeat split. Qed.

(** C1.  Removing a peer that was never added lowers [peer_count] all the
    same: on the database a new manager starts with, one such call leaves
    the predefined network with [peer_count] 3 and four peer rows; and
    after creating "Lab", adding peer "a" and removing an absent "b", the
    [peer_count] of "Lab" is 0 while one peer row still refers to it. *)
Theorem remove_absent_peer_breaks_count :
  (let db := run_v4 [RemovePeer "net-pi" "ghost"] in
   peer_count_of "net-pi" db = Some 3%Z
   /\ List.length (peers_of "net-pi" db) = 4)
  /\ (let db := run_v4 [lab_create; lab_add "a" None;
                        RemovePeer "net-lab" "b"] in
      peer_count_of "net-lab" db = Some 0%Z
      /\ map p_name (peers_of "net-lab" db) = ["a"]).
Proof. repeat split. Qed.

(** C6.  With peer "a" alone in "Lab", [remove_peer] for the absent name
    "b" returns normally and leaves the peer rows as they are, but the
    database is not the same afterwards: [peer_count] went from 1 to 0. *)
Theorem remove_absent_peer_changes_count :
  map p_name (peers_of "net-lab" lab_db_a) = ["a"]
  /\ peer_count_of "net-lab" lab_db_a = Some 1%Z
  /\ exists db',
       remove_peer "net-lab" "b" lab_db_a = Ok (tt, db')
       /\ peers db' = peers lab_db_a
       /\ peer_count_of "net-lab" db' = Some 0%Z
       /\ db' <> lab_db_a.
Proof.
  split; [reflexivity |]. split; [reflexivity |].
  eexists. split; [reflexivity |]. split; [reflexivity |].
  split; [reflexivity |].
  intros E. apply (f_equal (peer_count_of "net-lab")) in E.
  vm_compute in E. discriminate.
Qed.


(** The database a new manager starts with has no IP held twice. *)
Lemma manager_db_ip_unique : ip_unique manager_db.
Proof.
  intros network_id. unfold held_ips.
  let rows := eval vm_compute in (peers manager_db) in
  change (peers manager_db) with rows.
  repeat rewrite held_in_cons.
  cbn [p_network_id p_ip]. change (held_in network_id []) with (@nil string).
  destruct ("net-pi" =? network_id); cbn [app].
  - repeat (apply NoDup_cons; [simpl; intuition discriminate |]).
    apply NoDup_nil.
  - apply NoDup_nil.
Qed.

(** ** Instances of the general theorems on the worked example *)

(** Decides a statement about every row of a concrete table. *)
Ltac each_row :=
  let p := fresh "p" in
  let H := fresh "H" in
  intros p H; vm_compute in H;
  repeat (destruct H as [H | H];
          [subst p; vm_compute;
           first [discriminate | intros _; discriminate] |]);
  try contradiction.

Lemma create_network_outcomes_witness :
  create_network (lib := ipaddress_v4) "Lab" "10.0.0.0/33" ""
    "net-lab" "2024-01-02T00:00:00" manager_db
  = Raise (ValueError "Invalid CIDR: 10.0.0.0/33")
  /\ (exists msg,
        create_network (lib := ipaddress_v4) "Lab" "10.1.0.0/16" ""
          "net-2" "2024-01-03T00:00:00" lab_db
        = Raise (IntegrityError msg))
  /\ create_network (lib := ipaddress_v4) "Lab" "10.0.0.0/30" ""
       "net-lab" "2024-01-02T00:00:00" manager_db
     = Ok ("net-lab", lab_db).
Proof.
  split; [| split].
  - eapply (proj1 (create_network_outcomes (lib := ipaddress_v4)
                     "Lab" "10.0.0.0/33" "" "net-lab" "2024-01-02T00:00:00"
                     manager_db)).
    reflexivity.
  - eapply (proj1 (proj2 (create_network_outcomes (lib := ipaddress_v4)
                            "Lab" "10.1.0.0/16" "" "net-2"
                            "2024-01-03T00:00:00" lab_db))).
    + reflexivity.
    + exists {| n_id := "net-lab"; n_name := "Lab"; n_cidr := "10.0.0.0/30";
                n_description := ""; n_created_at := "2024-01-02T00:00:00";
                n_peer_count := 0 |}.
      split; [vm_compute; auto | reflexivity].
  - eapply (proj2 (proj2 (create_network_outcomes (lib := ipaddress_v4)
                            "Lab" "10.0.0.0/30" "" "net-lab"
                            "2024-01-02T00:00:00" manager_db))).
    + reflexivity.
    + each_row.
    + each_row.
Defined.

Lemma assign_group_errors_witness :
  assign_group "alice" "root" manager_db
  = Raise (ValueError "Invalid group: root")
  /\ assign_group "zed" "admin" manager_db
     = Raise (ValueError "Peer zed not found").
Proof.
  split.
  - apply (proj1 (assign_group_errors "alice" "root" manager_db)).
    intros H. simpl in H.
    repeat (destruct H as [H | H]; [discriminate |]). exact H.
  - apply (proj2 (assign_group_errors "zed" "admin" manager_db)).
    + simpl. auto.
    + each_row.
Defined.

Lemma assign_group_idempotent_witness :
  In "admin" VALID_GROUPS
  /\ (exists p, In p (peers manager_db) /\ p_name p = "alice")
  /\ exists db1,
       assign_group "alice" "admin" manager_db = Ok (tt, db1)
       /\ assign_group "alice" "admin" db1 = Ok (tt, db1)
       /\ (forall p, In p (peers db1) -> p_name p = "alice" ->
             exists g, p_groups p = Some g /\ In "admin" g).
Proof.
  assert (H1 : In "admin" VALID_GROUPS) by (simpl; auto).
  assert (H2 : exists p, In p (peers manager_db) /\ p_name p = "alice").
  { exists (new_peer_row "net-pi" "peer-pi-1" "alice" (Some "10.0.0.3")
                         "key-pi-1").
    split; [vm_compute; auto | reflexivity]. }
  split; [exact H1 |]. split; [exact H2 |].
  exact (assign_group_idempotent "alice" "admin" manager_db H1 H2).
Defined.




(** * Further properties *)

(** ** What a successful call implies *)

Lemma in_map_existsb {A} (f : A -> string) (x : string) (l : list A) :
  existsb (fun a => f a =? x) l = false <-> ~ In x (map f l).
Proof.
  rewrite existsb_false, in_map_iff. split.
  - intros H [a [Ha Hin]]. specialize (H a Hin).
    apply String.eqb_neq in H. contradiction.
  - intros H a Hin. apply String.eqb_neq. intros Ha. apply H. eauto.
Qed.

Lemma in_pairs_existsb (network_id name : string) (l : list PeerRow) :
  existsb (fun p => (p_network_id p =? network_id) && (p_name p =? name)) l
  = false
  <-> ~ In (network_id, name)
          (map (fun p => (p_network_id p, p_name p)) l).
Proof.
  rewrite existsb_false, in_map_iff. split.
  - intros H [p [Hp Hin]]. specialize (H p Hin). inversion Hp. subst.
    now rewrite !String.eqb_refl in H.
  - intros H p Hin.
    destruct (String.eqb_spec (p_network_id p) network_id);
      destruct (String.eqb_spec (p_name p) name); try reflexivity.
    exfalso. apply H. exists p. subst. auto.
Qed.

Lemma find_id_in (network_id : string) (l : list NetworkRow) (n : NetworkRow) :
  find (fun n => n_id n =? network_id) l = Some n ->
  In network_id (map n_id l).
Proof.
  intros H. apply find_some in H. destruct H as [Hin Hid].
  apply String.eqb_eq in Hid. subst. now apply in_map.
Qed.

Section MoreProperties.
Context {lib : Ipaddress}.

(** A successful [add_peer] found the network and met no key in use. *)
Lemma add_peer_ok_keys (network_id name : string) (ip : option string)
    (uuid4 public_key : string) (db : DB) (peer_id : string) (db' : DB) :
  add_peer network_id name ip uuid4 public_key db = Ok (peer_id, db') ->
  In network_id (map n_id (networks db))
  /\ ~ In uuid4 (map p_id (peers db))
  /\ ~ In (network_id, name)
          (map (fun p => (p_network_id p, p_name p)) (peers db)).
Proof.
  intros H. split.
  { apply add_peer_inv in H. destruct H as [n [_ [Hfind _]]].
    exact (find_id_in _ _ _ Hfind). }
  revert H. unfold add_peer, bind, select_cidr, gets.
  destruct (find _ (networks db)) as [n|]; simpl; [| discriminate].
  assert (Hins : forall ip0 r,
    match insert_peer (new_peer_row network_id uuid4 name ip0 public_key) db
    with
    | Ok (_, db1) => r db1
    | Raise e => Raise e
    end = Ok (peer_id, db') ->
    ~ In uuid4 (map p_id (peers db))
    /\ ~ In (network_id, name)
            (map (fun p => (p_network_id p, p_name p)) (peers db))).
  { intros ip0 r. unfold insert_peer.
    cbn [p_id p_network_id p_name new_peer_row].
    destruct (existsb (fun p => (p_network_id p =? network_id)
                                && (p_name p =? name)) (peers db)) eqn:H2;
      [discriminate |].
    destruct (existsb (fun p => p_id p =? uuid4) (peers db)) eqn:H1;
      [discriminate |].
    intros _. split.
    - exact (proj1 (in_map_existsb p_id uuid4 (peers db)) H1).
    - exact (proj1 (in_pairs_existsb network_id name (peers db)) H2). }
  destruct ip as [s|]; simpl.
  - apply Hins.
  - destruct (ip_network (n_cidr n)); [| discriminate]. simpl.
    unfold select_ips, gets. simpl. apply Hins.
Qed.

Lemma exec_step (c : call) (db : DB) : step db c (exec c db).
Proof.
  destruct c as [name cidr description uuid4 now
                | network_id name ip uuid4 public_key
                | network_id peer_name
                | peer_name group]; unfold exec.
  - unfold create_network.
    destruct (ip_network cidr) as [net | [msg | msg]];
      try apply step_raise.
    unfold bind, insert_network, ret. simpl.
    destruct (existsb (fun n => n_name n =? name) (networks db)) eqn:H2;
      [apply step_raise |].
    destruct (existsb (fun n => n_id n =? uuid4) (networks db)) eqn:H1;
      [apply step_raise |].
    apply step_create.
    + exact (proj1 (in_map_existsb n_id uuid4 (networks db)) H1).
    + exact (proj1 (in_map_existsb n_name name (networks db)) H2).
  - destruct (add_peer network_id name ip uuid4 public_key db)
      as [[peer_id db'] | e] eqn:H; [| apply step_raise].
    pose proof (add_peer_ok_keys _ _ _ _ _ _ _ _ H) as [Hn [Hid Hname]].
    apply add_peer_inv in H. destruct H as [n [ip' [_ [_ [_ ->]]]]].
    now apply step_add.
  - rewrite remove_peer_total. apply step_remove.
  - unfold assign_group.
    destruct (mem group VALID_GROUPS) eqn:Hg; simpl; [| apply step_raise].
    unfold bind, select_groups, gets.
    destruct (find _ (peers db)) as [p0|] eqn:Hf; simpl; [| apply step_raise].
    apply (step_assign db peer_name group p0).
    + now apply mem_In.
    + exact (proj1 (find_some _ _ Hf)).
Qed.

Lemma exec_all_invariant (P : DB -> Prop) :
  (forall c db, P db -> P (exec c db)) ->
  forall cs db, P db -> P (exec_all cs db).
Proof.
  intros Hstep cs. unfold exec_all.
  induction cs as [|c cs IH]; intros db Hdb; simpl; auto.
Qed.

(** ** The keys of the schema *)

Lemma map_incremented {B} (f : NetworkRow -> B) (network_id : string)
    (l : list NetworkRow) :
  (forall c n, f (set_peer_count c n) = f n) ->
  map f (incremented network_id l) = map f l.
Proof.
  intros Hf. unfold incremented. rewrite map_map. apply map_ext.
  intros n. destruct (n_id n =? network_id); [apply Hf | reflexivity].
Qed.

Lemma map_decremented {B} (f : NetworkRow -> B) (network_id : string)
    (l : list NetworkRow) :
  (forall c n, f (set_peer_count c n) = f n) ->
  map f (decremented network_id l) = map f l.
Proof.
  intros Hf. unfold decremented. rewrite map_map. apply map_ext.
  intros n. destruct ((n_id n =? network_id) && (0 <? n_peer_count n)%Z);
    [apply Hf | reflexivity].
Qed.

Lemma map_with_groups {B} (f : PeerRow -> B) (peer_name : string)
    (g : list string) (l : list PeerRow) :
  (forall v p, f (set_groups v p) = f p) ->
  map f (with_groups peer_name g l) = map f l.
Proof.
  intros Hf. unfold with_groups. rewrite map_map. apply map_ext.
  intros p. destruct (p_name p =? peer_name); [apply Hf | reflexivity].
Qed.

Lemma NoDup_map_filter {A B} (f : A -> B) (keep : A -> bool) (l : list A) :
  NoDup (map f l) -> NoDup (map f (filter keep l)).
Proof.
  induction l as [|a l IH]; simpl; [auto |].
  intros H. apply NoDup_cons_iff in H. destruct H as [Ha Hl].
  destruct (keep a); simpl; [| auto].
  constructor; [| auto].
  intros Hin. apply Ha. apply in_map_iff in Hin.
  destruct Hin as [x [Hx Hin]]. apply filter_In in Hin.
  apply in_map_iff. exists x. tauto.
Qed.

Lemma step_keys_unique (db db' : DB) (c : call) :
  step db c db' -> keys_unique db -> keys_unique db'.
Proof.
  unfold keys_unique.
  intros [] [Hnid [Hnname [Hpid Hpname]]]; simpl; auto.
  - rewrite !map_app. simpl. repeat split; auto using NoDup_snoc.
  - rewrite !map_incremented by reflexivity. rewrite !map_app. simpl.
    repeat split; auto using NoDup_snoc.
  - rewrite !map_decremented by reflexivity. unfold without_peer.
    repeat split; auto using NoDup_map_filter.
  - rewrite !map_with_groups by reflexivity. auto.
Qed.

(** X1.  The uniqueness the schema declares, of [id] in both tables, of
    [name] in [networks] and of [(network_id, name)] in [peers], is kept
    by every sequence of calls. *)
Theorem keys_stay_unique (cs : list call) (db : DB) :
  keys_unique db -> keys_unique (exec_all cs db).
Proof.
  apply exec_all_invariant. intros c d.
  exact (step_keys_unique _ _ _ (exec_step c d)).
Qed.

Lemma step_refs_valid (db db' : DB) (c : call) :
  step db c db' -> refs_valid db -> refs_valid db'.
Proof.
  unfold refs_valid.
  intros [] Hdb p Hp; simpl in *; auto.
  - rewrite map_app. apply in_or_app. left. auto.
  - rewrite map_incremented by reflexivity.
    apply in_app_or in Hp. destruct Hp as [Hp | [<- | []]]; simpl; auto.
  - rewrite map_decremented by reflexivity.
    apply filter_In in Hp. destruct Hp as [Hp _]. auto.
  - apply in_map_iff in Hp. destruct Hp as [q [<- Hq]].
    destruct (p_name q =? peer_name); simpl; auto.
Qed.

(** X2.  No call ever stores a peer row without its network, and none removes
    a network: every peer row keeps referring to a stored network. *)
Theorem references_stay_valid (cs : list call) (db : DB) :
  refs_valid db -> refs_valid (exec_all cs db).
Proof.
  apply exec_all_invariant. intros c d.
  exact (step_refs_valid _ _ _ (exec_step c d)).
Qed.

(** ** peer_count against the peer rows *)

Lemma filter_split_length {A} (f g : A -> bool) (l : list A) :
  (List.length (filter f (filter (fun a => negb (g a)) l))
   + List.length (filter (fun a => f a && g a) l)
   = List.length (filter f l))%nat.
Proof.
  induction l as [|a l IH]; simpl; [reflexivity |].
  destruct (g a); simpl; destruct (f a); simpl; lia.
Qed.

Lemma length_filter_map {A} (f : A -> bool) (g : A -> A) (l : list A) :
  (forall a, f (g a) = f a) ->
  List.length (filter f (map g l)) = List.length (filter f l).
Proof.
  intros Hfg. induction l as [|a l IH]; simpl; [reflexivity |].
  rewrite Hfg. destruct (f a); simpl; now rewrite IH.
Qed.

Lemma doomed_at_most_one (network_id peer_name : string) (l : list PeerRow) :
  NoDup (map (fun p => (p_network_id p, p_name p)) l) ->
  (List.length (doomed network_id peer_name l) <= 1)%nat.
Proof.
  unfold doomed. induction l as [|a l IH]; simpl; [lia |].
  intros H. apply NoDup_cons_iff in H. destruct H as [Ha Hl].
  destruct (String.eqb_spec (p_network_id a) network_id) as [En |];
    simpl; [| auto].
  destruct (String.eqb_spec (p_name a) peer_name) as [Em |];
    simpl; [| auto].
  rewrite En, Em in Ha. apply in_pairs_existsb in Ha.
  replace (filter _ l) with (@nil PeerRow); [simpl; lia |].
  symmetry. pose proof (proj1 (existsb_false _ l) Ha) as Hall.
  clear -Hall. induction l as [|b l IH]; simpl; [reflexivity |].
  rewrite (Hall b (or_introl eq_refl)). apply IH.
  intros x Hx. apply Hall. now right.
Qed.

Lemma doomed_at_least_one (network_id peer_name : string) (l : list PeerRow) :
  existsb (fun p => (p_network_id p =? network_id) && (p_name p =? peer_name))
          l = true ->
  (1 <= List.length (doomed network_id peer_name l))%nat.
Proof.
  unfold doomed. induction l as [|a l IH]; simpl; [discriminate |].
  destruct ((p_network_id a =? network_id) && (p_name a =? peer_name));
    simpl; [lia | auto].
Qed.

Lemma row_count_without_peer (network_id peer_name nid : string)
    (l : list PeerRow) (networks0 : list NetworkRow) :
  row_count nid {| networks := networks0;
                   peers := without_peer network_id peer_name l |}
  = (row_count nid {| networks := networks0; peers := l |}
     - (if (nid =? network_id)%string
        then Z.of_nat (List.length (doomed network_id peer_name l))
        else 0))%Z.
Proof.
  unfold row_count, peers_of, without_peer, doomed. simpl.
  pose proof (filter_split_length
                (fun p => p_network_id p =? nid)
                (fun p => (p_network_id p =? network_id)
                          && (p_name p =? peer_name)) l) as Hsplit.
  match type of Hsplit with
  | (_ + List.length ?both = _)%nat => set (common := both) in Hsplit
  end.
  destruct (String.eqb_spec nid network_id) as [-> | Hne].
  - assert (E : common
                = filter (fun p => (p_network_id p =? network_id)
                                   && (p_name p =? peer_name)) l).
    { apply filter_ext. intros a.
      destruct (p_network_id a =? network_id); reflexivity. }
    rewrite E in Hsplit. lia.
  - assert (E : common = []).
    { unfold common. clear Hsplit common.
      induction l as [|a l IH]; simpl; [reflexivity |].
      destruct (String.eqb_spec (p_network_id a) nid) as [E |]; simpl; auto.
      destruct (String.eqb_spec (p_network_id a) network_id); simpl; auto.
      congruence. }
    rewrite E in Hsplit. simpl in Hsplit. lia.
Qed.

Lemma row_count_snoc (nid : string) (row : PeerRow) (l : list PeerRow)
    (networks0 networks1 : list NetworkRow) :
  row_count nid {| networks := networks1; peers := (l ++ [row])%list |}
  = (row_count nid {| networks := networks0; peers := l |}
     + (if (p_network_id row =? nid)%string then 1 else 0))%Z.
Proof.
  unfold row_count, peers_of. simpl. rewrite filter_app, length_app. simpl.
  destruct (p_network_id row =? nid); simpl; lia.
Qed.

Lemma row_count_with_groups (nid peer_name : string) (g : list string)
    (l : list PeerRow) (networks0 : list NetworkRow) :
  row_count nid {| networks := networks0;
                   peers := with_groups peer_name g l |}
  = row_count nid {| networks := networks0; peers := l |}.
Proof.
  unfold row_count, peers_of, with_groups. simpl. f_equal.
  apply length_filter_map. intros p.
  destruct (p_name p =? peer_name); reflexivity.
Qed.

Lemma row_count_networks (nid : string) (l : list PeerRow)
    (networks0 networks1 : list NetworkRow) :
  row_count nid {| networks := networks0; peers := l |}
  = row_count nid {| networks := networks1; peers := l |}.
Proof. reflexivity. Qed.

Lemma row_count_nonneg (nid : string) (db : DB) : (0 <= row_count nid db)%Z.
Proof. unfold row_count. lia. Qed.

Lemma step_counts_bounded (db db' : DB) (c : call) :
  step db c db' -> keys_unique db -> counts_bounded db -> counts_bounded db'.
Proof.
  unfold counts_bounded.
  intros Hstep [_ [_ [_ Hpairs]]] Hdb.
  assert (Hdb' : forall n, In n (networks db) ->
            (n_peer_count n
             <= row_count (n_id n)
                  {| networks := networks db; peers := peers db |})%Z)
    by (intros n Hn; destruct db; auto).
  clear Hdb.
  destruct Hstep; intros n' Hn'; simpl in Hn'.
  - destruct db; auto.
  - apply in_app_or in Hn'. destruct Hn' as [Hn' | [<- | []]].
    + apply Hdb', Hn'.
    + simpl. apply row_count_nonneg.
  - apply in_map_iff in Hn'. destruct Hn' as [n [<- Hn]].
    specialize (Hdb' n Hn).
    rewrite (row_count_snoc _ _ _ (networks db)). simpl.
    destruct (String.eqb_spec (n_id n) network_id) as [E | E]; simpl.
    + rewrite <- E, String.eqb_refl. lia.
    + destruct (String.eqb_spec network_id (n_id n)); [congruence | lia].
  - apply in_map_iff in Hn'. destruct Hn' as [n [<- Hn]].
    specialize (Hdb' n Hn).
    pose proof (doomed_at_most_one network_id peer_name _ Hpairs) as Hone.
    destruct (String.eqb_spec (n_id n) network_id) as [E | E]; simpl.
    + subst network_id.
      pose proof (row_count_nonneg (n_id n)
                    {| networks := networks db;
                       peers := without_peer (n_id n) peer_name (peers db) |})
        as Hleft.
      rewrite row_count_without_peer, String.eqb_refl in Hleft.
      destruct (Z.ltb_spec 0 (n_peer_count n)); simpl;
        rewrite (row_count_networks _ _ _ (networks db)),
          row_count_without_peer, String.eqb_refl; lia.
    + rewrite (row_count_networks _ _ _ (networks db)),
        row_count_without_peer.
      destruct (String.eqb_spec (n_id n) network_id); [contradiction | lia].
  - rewrite row_count_with_groups. auto.
Qed.

(** X3.  With the schema's keys in force, no sequence of calls ever leaves a
    [peer_count] above the number of peer rows of its network: the counter
    can only drift downwards. *)
Theorem peer_count_never_exceeds_rows (cs : list call) (db : DB) :
  keys_unique db -> counts_bounded db ->
  counts_bounded (exec_all cs db).
Proof.
  intros Hkeys Hcounts.
  apply (exec_all_invariant (fun d => keys_unique d /\ counts_bounded d));
    [| auto].
  intros c d [Hk Hc]. split.
  - exact (step_keys_unique _ _ _ (exec_step c d) Hk).
  - exact (step_counts_bounded _ _ _ (exec_step c d) Hk Hc).
Qed.

Lemma row_count_unreferenced (nid : string) (db : DB) :
  refs_valid db -> ~ In nid (map n_id (networks db)) -> row_count nid db = 0%Z.
Proof.
  intros Hrefs Hnew. unfold row_count, peers_of.
  replace (filter _ (peers db)) with (@nil PeerRow); [reflexivity |].
  symmetry. assert (H : forall p, In p (peers db) -> p_network_id p <> nid).
  { intros p Hp E. apply Hnew. rewrite <- E. auto. }
  induction (peers db) as [|a l IH]; simpl; [reflexivity |].
  destruct (String.eqb_spec (p_network_id a) nid) as [E |].
  - exfalso. exact (H a (or_introl eq_refl) E).
  - apply IH. intros p Hp. apply H. now right.
Qed.

Lemma step_counts_match (db db' : DB) (c : call) :
  step db c db' -> hits c db = true ->
  keys_unique db -> refs_valid db -> counts_match db -> counts_match db'.
Proof.
  unfold counts_match.
  intros Hstep Hhit [_ [_ [_ Hpairs]]] Hrefs Hdb.
  assert (Hdb' : forall n, In n (networks db) ->
            n_peer_count n
            = row_count (n_id n)
                {| networks := networks db; peers := peers db |})
    by (intros n Hn; destruct db; auto).
  destruct Hstep; intros n' Hn'; simpl in Hn'.
  - auto.
  - apply in_app_or in Hn'. destruct Hn' as [Hn' | [<- | []]].
    + apply Hdb', Hn'.
    + simpl. symmetry.
      rewrite (row_count_networks _ _ _ (networks db)).
      replace {| networks := networks db; peers := peers db |} with db
        by (destruct db; reflexivity).
      now apply row_count_unreferenced.
  - apply in_map_iff in Hn'. destruct Hn' as [n [<- Hn]].
    specialize (Hdb' n Hn).
    rewrite (row_count_snoc _ _ _ (networks db)). simpl.
    destruct (String.eqb_spec (n_id n) network_id) as [E | E]; simpl.
    + rewrite <- E, String.eqb_refl. lia.
    + destruct (String.eqb_spec network_id (n_id n)); [congruence | lia].
  - apply in_map_iff in Hn'. destruct Hn' as [n [<- Hn]].
    specialize (Hdb' n Hn). simpl in Hhit.
    pose proof (doomed_at_most_one network_id peer_name _ Hpairs) as Hmost.
    pose proof (doomed_at_least_one network_id peer_name _ Hhit) as Hleast.
    destruct (String.eqb_spec (n_id n) network_id) as [E | E]; simpl.
    + subst network_id.
      pose proof (row_count_nonneg (n_id n)
                    {| networks := networks db;
                       peers := without_peer (n_id n) peer_name (peers db) |})
        as Hleft.
      rewrite row_count_without_peer, String.eqb_refl in Hleft.
      destruct (Z.ltb_spec 0 (n_peer_count n)); simpl;
        rewrite (row_count_networks _ _ _ (networks db)),
          row_count_without_peer, String.eqb_refl; lia.
    + rewrite (row_count_networks _ _ _ (networks db)),
        row_count_without_peer.
      destruct (String.eqb_spec (n_id n) network_id); [contradiction | lia].
  - rewrite row_count_with_groups. auto.
Qed.

(** X4.  From a database whose counters match and whose keys and references
    are sound, a sequence of calls in which every [remove_peer] names a
    peer stored at that moment leaves every [peer_count] equal to the
    number of peer rows of its network. *)
Theorem peer_count_matches_when_removes_hit (cs : list call) (db : DB) :
  keys_unique db -> refs_valid db -> counts_match db ->
  all_hit cs db = true ->
  counts_match (exec_all cs db).
Proof.
  unfold exec_all. revert db.
  induction cs as [|c cs IH]; intros db Hk Hr Hc Hhit; simpl; [assumption |].
  simpl in Hhit. apply andb_true_iff in Hhit. destruct Hhit as [Hc1 Hcs].
  pose proof (exec_step c db) as Hstep.
  apply IH.
  - exact (step_keys_unique _ _ _ Hstep Hk).
  - exact (step_refs_valid _ _ _ Hstep Hr).
  - exact (step_counts_match _ _ _ Hstep Hc1 Hk Hr Hc).
  - exact Hcs.
Qed.

(** ** Group lists *)

Lemma step_groups_valid (db db' : DB) (c : call) :
  step db c db' -> groups_valid db -> groups_valid db'.
Proof.
  unfold groups_valid.
  intros [] Hdb p Hp; simpl in Hp; auto.
  - apply in_app_or in Hp. destruct Hp as [Hp | [<- | []]]; [auto |].
    simpl. split; [constructor | intros g []].
  - apply filter_In in Hp. destruct Hp as [Hp _]. auto.
  - apply in_map_iff in Hp. destruct Hp as [q [<- Hq]].
    destruct (p_name q =? peer_name); [| auto].
    unfold groups_of at 1 3. simpl.
    destruct (Hdb p0 H0) as [Hnodup Hvalid].
    destruct (mem group (groups_of p0)) eqn:Hmem; simpl; [auto |].
    apply mem_not_In in Hmem. split.
    + now apply NoDup_snoc.
    + intros g Hg. apply in_app_or in Hg.
      destruct Hg as [Hg | [<- | []]]; [exact (Hvalid g Hg) | exact H].
Qed.

(** X5.  Whatever the calls, every stored group list stays free of duplicates
    and within the five valid groups, so no peer is ever in more than five
    groups. *)
Theorem group_lists_stay_valid (cs : list call) (db : DB) :
  groups_valid db ->
  forall p, In p (peers (exec_all cs db)) ->
    NoDup (groups_of p)
    /\ (forall g, In g (groups_of p) -> In g VALID_GROUPS)
    /\ (List.length (groups_of p) <= 5)%nat.
Proof.
  intros Hdb p Hp.
  assert (H : groups_valid (exec_all cs db)).
  { revert Hdb. apply exec_all_invariant. intros c d.
    exact (step_groups_valid _ _ _ (exec_step c d)). }
  destruct (H p Hp) as [Hnodup Hvalid].
  split; [assumption |]. split; [assumption |].
  change 5%nat with (List.length VALID_GROUPS).
  apply NoDup_incl_length; assumption.
Qed.

(** ** add_peer: errors, explicit addresses, undoing *)

(** X6.  [add_peer] for a network identifier that is not stored raises
    [ValueError "Network ... not found"]. *)
Theorem add_peer_unknown_network (network_id name : string)
    (ip : option string) (uuid4 public_key : string) (db : DB) :
  ~ In network_id (map n_id (networks db)) ->
  add_peer network_id name ip uuid4 public_key db
  = Raise (ValueError ("Network " ++ network_id ++ " not found")).
Proof.
  intros Hnone. unfold add_peer, bind, select_cidr, gets.
  replace (find _ (networks db)) with (@None NetworkRow); [reflexivity |].
  symmetry. apply find_none_iff.
  exact (proj1 (existsb_false _ _)
           (proj2 (in_map_existsb n_id network_id (networks db)) Hnone)).
Qed.

(** X7.  [add_peer] with a name some peer of the network already carries raises
    [sqlite3.IntegrityError], whether the address is explicit or, the CIDR
    parsing, automatic. *)
Theorem add_peer_duplicate_name (network_id name : string)
    (ip : option string) (uuid4 public_key : string) (db : DB)
    (n : NetworkRow) :
  find (fun n => n_id n =? network_id) (networks db) = Some n ->
  (ip = None -> exists network, ip_network (n_cidr n) = Ok network) ->
  In (network_id, name)
     (map (fun p => (p_network_id p, p_name p)) (peers db)) ->
  exists msg,
    add_peer network_id name ip uuid4 public_key db
    = Raise (IntegrityError msg).
Proof.
  intros Hfind Hparse Hdup.
  assert (Hex : existsb (fun p => (p_network_id p =? network_id)
                                  && (p_name p =? name)) (peers db) = true).
  { destruct (existsb _ (peers db)) eqn:E; [reflexivity |].
    apply in_pairs_existsb in E. contradiction. }
  assert (Hins : forall ip0 (k : unit -> M string),
    exists msg,
      bind (insert_peer (new_peer_row network_id uuid4 name ip0 public_key))
           k db
      = Raise (IntegrityError msg)).
  { intros ip0 k. unfold bind, insert_peer.
    cbn [p_id p_network_id p_name new_peer_row].
    rewrite Hex. eexists; reflexivity. }
  unfold add_peer. unfold bind at 1. unfold select_cidr, gets.
  rewrite Hfind. simpl.
  destruct ip as [s|].
  - unfold bind at 1. simpl. apply Hins.
  - destruct (Hparse eq_refl) as [network Hnet]. rewrite Hnet.
    unfold bind at 1. unfold bind at 1. unfold select_ips, gets, ret.
    apply Hins.
Qed.

(** X8.  An explicit address is stored as given: with the network stored and
    the name and identifier unused, [add_peer] accepts any text at all as
    [ip], without parsing the CIDR or looking at the addresses in use. *)
Theorem add_peer_explicit_ip_unchecked (network_id name s : string)
    (uuid4 public_key : string) (db : DB) :
  In network_id (map n_id (networks db)) ->
  ~ In uuid4 (map p_id (peers db)) ->
  ~ In (network_id, name)
       (map (fun p => (p_network_id p, p_name p)) (peers db)) ->
  add_peer network_id name (Some s) uuid4 public_key db
  = Ok (uuid4,
        {| networks := incremented network_id (networks db);
           peers := (peers db
                     ++ [new_peer_row network_id uuid4 name (Some s)
                                      public_key])%list |}).
Proof.
  intros Hnet Hid Hname.
  unfold add_peer, bind, select_cidr, gets.
  destruct (find (fun n => n_id n =? network_id) (networks db)) as [n|] eqn:Hf.
  - simpl. unfold insert_peer.
    cbn [p_id p_network_id p_name new_peer_row].
    rewrite (proj2 (in_map_existsb p_id uuid4 (peers db)) Hid).
    rewrite (proj2 (in_pairs_existsb network_id name (peers db)) Hname).
    reflexivity.
  - exfalso.
    exact (proj1 (in_map_existsb n_id network_id (networks db))
             (proj2 (existsb_false _ _) (find_none _ _ Hf)) Hnet).
Qed.

Lemma decremented_incremented (network_id : string) (l : list NetworkRow) :
  (forall n, In n l -> (0 <= n_peer_count n)%Z) ->
  decremented network_id (incremented network_id l) = l.
Proof.
  intros Hl. unfold decremented, incremented. rewrite map_map.
  rewrite <- (map_id l) at 2. apply map_ext_in. intros n Hn.
  specialize (Hl n Hn).
  destruct (n_id n =? network_id) eqn:E; simpl; rewrite E; simpl.
  - destruct (Z.ltb_spec 0 (n_peer_count n + 1)); [| lia].
    destruct n. unfold set_peer_count. simpl. f_equal. lia.
  - reflexivity.
Qed.

Lemma without_peer_snoc (network_id name : string) (row : PeerRow)
    (l : list PeerRow) :
  ~ In (network_id, name) (map (fun p => (p_network_id p, p_name p)) l) ->
  p_network_id row = network_id -> p_name row = name ->
  without_peer network_id name (l ++ [row]) = l.
Proof.
  intros Hfresh Hn Hname. unfold without_peer. rewrite filter_app. simpl.
  rewrite Hn, Hname, !String.eqb_refl. simpl. rewrite app_nil_r.
  apply in_pairs_existsb in Hfresh.
  pose proof (proj1 (existsb_false _ _) Hfresh) as Hall. clear Hfresh.
  induction l as [|a l IH]; simpl; [reflexivity |].
  rewrite (Hall a (or_introl eq_refl)). simpl. f_equal.
  apply IH. intros x Hx. apply Hall. now right.
Qed.

(** X9.  Removing a peer right after adding it restores the database exactly,
    rows and counters, provided no counter was negative and every counter
    was below [MAX_INTEGER], so that the increment stays an integer. *)
Theorem remove_undoes_add (network_id name : string) (ip : option string)
    (uuid4 public_key : string) (db : DB) (peer_id : string) (db' : DB) :
  counts_nonneg db ->
  (forall n, In n (networks db) -> (n_peer_count n < MAX_INTEGER)%Z) ->
  add_peer network_id name ip uuid4 public_key db = Ok (peer_id, db') ->
  remove_peer network_id name db' = Ok (tt, db).
Proof.
  intros Hcounts _ Hadd.
  pose proof (add_peer_ok_keys _ _ _ _ _ _ _ _ Hadd) as [_ [_ Hfresh]].
  apply add_peer_inv in Hadd. destruct Hadd as [n [ip' [_ [_ [_ ->]]]]].
  rewrite remove_peer_total. simpl.
  rewrite decremented_incremented by exact Hcounts.
  rewrite without_peer_snoc by (assumption || reflexivity).
  destruct db; reflexivity.
Qed.

(** ** assign_group across namesakes, and list_peers *)

(** What a successful [assign_group] did. *)
Lemma assign_group_inv (peer_name group : string) (db db1 : DB) :
  assign_group peer_name group db = Ok (tt, db1) ->
  exists p0,
    In group VALID_GROUPS
    /\ find (fun p => p_name p =? peer_name) (peers db) = Some p0
    /\ db1 = {| networks := networks db;
                peers := with_groups peer_name
                           (if negb (mem group (groups_of p0))
                            then (groups_of p0 ++ [group])%list
                            else groups_of p0)
                           (peers db) |}.
Proof.
  unfold assign_group.
  destruct (mem group VALID_GROUPS) eqn:Hg; simpl; [| discriminate].
  unfold bind, select_groups, gets.
  destruct (find _ (peers db)) as [p0|] eqn:Hf; simpl; [| discriminate].
  unfold update_groups, modify. intros E. injection E as <-.
  exists p0. split; [exact (proj1 (mem_In group VALID_GROUPS) Hg) |].
  split; reflexivity.
Qed.

(** X10.  [assign_group] looks the peer up by name alone and writes to every row
    of that name: after it, each such row, in whatever network, holds the
    groups of the first row of that name together with the new group, and
    nothing of what it held itself. *)
Theorem assign_group_overwrites_namesakes (peer_name group : string)
    (db db1 : DB) :
  assign_group peer_name group db = Ok (tt, db1) ->
  exists p0,
    find (fun p => p_name p =? peer_name) (peers db) = Some p0
    /\ forall p, In p (peers db1) -> p_name p = peer_name ->
         forall g, In g (groups_of p) <-> In g (groups_of p0) \/ g = group.
Proof.
  intros H. apply assign_group_inv in H.
  destruct H as [p0 [_ [Hfind ->]]]. exists p0. split; [assumption |].
  simpl. intros p Hp Hname g. unfold with_groups in Hp.
  apply in_map_iff in Hp. destruct Hp as [q [<- Hq]].
  destruct (String.eqb_spec (p_name q) peer_name) as [E | E].
  - unfold groups_of at 1. simpl.
    destruct (mem group (groups_of p0)) eqn:Hmem; simpl.
    + apply mem_In in Hmem. split; [auto |]. intros [Hg | ->]; assumption.
    + rewrite in_app_iff. simpl. intuition.
  - contradiction.
Qed.

(** *** The order of the names *)

Lemma ascii_compare_lt_trans (a b c : ascii) :
  Ascii.compare a b = Lt -> Ascii.compare b c = Lt -> Ascii.compare a c = Lt.
Proof.
  unfold Ascii.compare. rewrite !N.compare_lt_iff. lia.
Qed.

Lemma ascii_compare_refl (a : ascii) : Ascii.compare a a = Eq.
Proof. unfold Ascii.compare. apply N.compare_refl. Qed.

Lemma string_compare_lt_trans (s1 s2 s3 : string) :
  String.compare s1 s2 = Lt -> String.compare s2 s3 = Lt ->
  String.compare s1 s3 = Lt.
Proof.
  revert s2 s3.
  induction s1 as [|a s1 IH]; intros [|b s2] [|c s3]; simpl;
    try discriminate; auto.
  destruct (Ascii.compare a b) eqn:E1; try discriminate;
    destruct (Ascii.compare b c) eqn:E2; try discriminate; intros H1 H2.
  - apply Ascii.compare_eq_iff in E1, E2. subst.
    rewrite ascii_compare_refl. eauto.
  - apply Ascii.compare_eq_iff in E1. subst. now rewrite E2.
  - apply Ascii.compare_eq_iff in E2. subst. now rewrite E1.
  - now rewrite (ascii_compare_lt_trans _ _ _ E1 E2).
Qed.

Lemma string_leb_refl (s : string) : String.leb s s = true.
Proof. now destruct (String.leb_total s s). Qed.

Lemma string_leb_trans (s1 s2 s3 : string) :
  String.leb s1 s2 = true -> String.leb s2 s3 = true ->
  String.leb s1 s3 = true.
Proof.
  unfold String.leb at 1 2.
  destruct (String.compare s1 s2) eqn:E1; try discriminate;
    destruct (String.compare s2 s3) eqn:E2; try discriminate; intros _ _.
  - apply String.compare_eq_iff in E1. apply String.compare_eq_iff in E2.
    subst. apply string_leb_refl.
  - apply String.compare_eq_iff in E1. subst. unfold String.leb.
    now rewrite E2.
  - apply String.compare_eq_iff in E2. subst. unfold String.leb.
    now rewrite E1.
  - unfold String.leb. now rewrite (string_compare_lt_trans _ _ _ E1 E2).
Qed.

Lemma string_leb_false_ltb (s1 s2 : string) :
  String.leb s1 s2 = false -> String.ltb s2 s1 = true.
Proof.
  unfold String.leb, String.ltb. rewrite (String.compare_antisym s2 s1).
  now destruct (String.compare s1 s2).
Qed.

Lemma string_leb_ne_ltb (s1 s2 : string) :
  String.leb s1 s2 = true -> s1 <> s2 -> String.ltb s1 s2 = true.
Proof.
  unfold String.leb, String.ltb. intros H Hne.
  destruct (String.compare s1 s2) eqn:E; try discriminate; [| reflexivity].
  apply String.compare_eq_iff in E. contradiction.
Qed.

Lemma insert_by_name_perm (p : PeerRow) (l : list PeerRow) :
  Permutation (insert_by_name p l) (p :: l).
Proof.
  induction l as [|q l IH]; simpl; [reflexivity |].
  destruct (String.leb (p_name p) (p_name q)); [reflexivity |].
  rewrite IH. apply perm_swap.
Qed.

Lemma order_by_name_perm (l : list PeerRow) :
  Permutation (order_by_name l) l.
Proof.
  induction l as [|p l IH]; simpl; [reflexivity |].
  rewrite insert_by_name_perm. now constructor.
Qed.

Lemma insert_by_name_sorted (p : PeerRow) (l : list PeerRow) :
  Sorted name_le l -> Sorted name_le (insert_by_name p l).
Proof.
  induction l as [|q l IH]; simpl; intros Hs.
  - repeat constructor.
  - destruct (String.leb (p_name p) (p_name q)) eqn:E.
    + constructor; [assumption | constructor; exact E].
    + inversion Hs as [|? ? Hl Hhd]; subst.
      constructor; [auto |].
      assert (Hqp : name_le q p).
      { destruct (String.leb_total (p_name p) (p_name q)); [congruence |].
        assumption. }
      destruct l as [|r l]; simpl.
      * constructor. exact Hqp.
      * destruct (String.leb (p_name p) (p_name r)); constructor;
          [exact Hqp | now inversion Hhd].
Qed.

Lemma order_by_name_sorted (l : list PeerRow) :
  Sorted name_le (order_by_name l).
Proof.
  induction l as [|p l IH]; simpl; [constructor |].
  now apply insert_by_name_sorted.
Qed.

Lemma name_le_trans (p q r : PeerRow) :
  name_le p q -> name_le q r -> name_le p r.
Proof. apply string_leb_trans. Qed.

(** Inserting two rows of different names gives the same list in either
    order. *)
Lemma insert_by_name_comm (a b : PeerRow) (l : list PeerRow) :
  p_name a <> p_name b ->
  insert_by_name a (insert_by_name b l)
  = insert_by_name b (insert_by_name a l).
Proof.
  intros Hne.
  assert (Hab : String.leb (p_name a) (p_name b)
                = negb (String.leb (p_name b) (p_name a))).
  { destruct (String.leb (p_name a) (p_name b)) eqn:E1,
             (String.leb (p_name b) (p_name a)) eqn:E2; try reflexivity.
    - elim Hne. now apply String.leb_antisym.
    - destruct (String.leb_total (p_name a) (p_name b)); congruence. }
  induction l as [|q l IH]; simpl.
  - rewrite Hab. now destruct (String.leb (p_name b) (p_name a)).
  - destruct (String.leb (p_name b) (p_name q)) eqn:Eb,
             (String.leb (p_name a) (p_name q)) eqn:Ea; simpl;
      rewrite ?Ea, ?Eb.
    + rewrite Hab. now destruct (String.leb (p_name b) (p_name a)).
    + destruct (String.leb (p_name a) (p_name b)) eqn:E; [| reflexivity].
      rewrite (string_leb_trans _ _ _ E Eb) in Ea. discriminate.
    + destruct (String.leb (p_name b) (p_name a)) eqn:E; [| reflexivity].
      rewrite (string_leb_trans _ _ _ E Ea) in Eb. discriminate.
    + now rewrite IH.
Qed.

(** A row appended to the table is inserted into the sorted rows. *)
Lemma order_by_name_snoc (row : PeerRow) (l : list PeerRow) :
  (forall q, In q l -> p_name q <> p_name row) ->
  order_by_name (l ++ [row]) = insert_by_name row (order_by_name l).
Proof.
  induction l as [|a l IH]; simpl; intros Hne; [reflexivity |].
  rewrite IH by auto. apply insert_by_name_comm. auto.
Qed.

Lemma insert_by_name_app (p : PeerRow) (before after : list PeerRow) :
  (forall q, In q before -> String.leb (p_name p) (p_name q) = false) ->
  insert_by_name p (before ++ after) = (before ++ insert_by_name p after)%list.
Proof.
  induction before as [|q before IH]; simpl; intros H; [reflexivity |].
  rewrite (H q (or_introl eq_refl)). f_equal. auto.
Qed.

Lemma insert_by_name_head (p : PeerRow) (after : list PeerRow) :
  (forall q, In q after -> name_le p q) ->
  insert_by_name p after = p :: after.
Proof.
  destruct after as [|q after]; simpl; intros H; [reflexivity |].
  now rewrite (H q (or_introl eq_refl)).
Qed.

(** A sorted list splits at a name into the rows strictly before it and
    the rows from it on. *)
Lemma sorted_split (p : PeerRow) (l : list PeerRow) :
  Sorted name_le l ->
  exists before after,
    l = (before ++ after)%list
    /\ (forall q, In q before -> String.leb (p_name p) (p_name q) = false)
    /\ (forall q, In q after -> name_le p q).
Proof.
  induction l as [|q l IH]; intros Hs.
  - exists [], []. repeat split; contradiction.
  - destruct (String.leb (p_name p) (p_name q)) eqn:E.
    + exists [], (q :: l). split; [reflexivity |].
      split; [contradiction |].
      pose proof (Sorted_extends name_le_trans Hs) as Hall.
      rewrite Forall_forall in Hall.
      intros r [<- | Hr]; [exact E |].
      exact (name_le_trans _ _ _ E (Hall r Hr)).
    + inversion Hs as [|? ? Hl _]; subst.
      destruct (IH Hl) as [before [after [-> [Hb Ha]]]].
      exists (q :: before), after. split; [reflexivity |].
      split; [| exact Ha].
      intros r [<- | Hr]; [exact E | auto].
Qed.

Lemma insert_by_name_split (p : PeerRow) (l : list PeerRow) :
  Sorted name_le l ->
  exists before after,
    l = (before ++ after)%list
    /\ insert_by_name p l = (before ++ p :: after)%list
    /\ (forall q, In q before -> String.leb (p_name p) (p_name q) = false)
    /\ (forall q, In q after -> name_le p q).
Proof.
  intros Hs. destruct (sorted_split p l Hs) as [before [after [-> [Hb Ha]]]].
  exists before, after. split; [reflexivity |]. split; [| now split].
  rewrite insert_by_name_app by assumption.
  now rewrite insert_by_name_head.
Qed.

(** Filtering commutes with the insertion into a sorted list. *)
Lemma filter_insert_by_name (f : PeerRow -> bool) (p : PeerRow)
    (l : list PeerRow) :
  Sorted name_le l ->
  filter f (insert_by_name p l)
  = if f p then insert_by_name p (filter f l) else filter f l.
Proof.
  intros Hs.
  destruct (insert_by_name_split p l Hs) as [before [after [-> [-> [Hb Ha]]]]].
  rewrite !filter_app. simpl. destruct (f p); [| reflexivity].
  rewrite insert_by_name_app
    by (intros q Hq; apply filter_In in Hq; apply Hb, Hq).
  rewrite insert_by_name_head
    by (intros q Hq; apply filter_In in Hq; apply Ha, Hq).
  reflexivity.
Qed.

Lemma order_by_name_filter (f : PeerRow -> bool) (l : list PeerRow) :
  order_by_name (filter f l) = filter f (order_by_name l).
Proof.
  induction l as [|a l IH]; simpl; [reflexivity |].
  rewrite filter_insert_by_name by apply order_by_name_sorted.
  destruct (f a); simpl; now rewrite IH.
Qed.

Lemma list_peers_by_group (g : string) (db : DB) :
  g <> "" ->
  list_peers None (Some g) db
  = Ok (filter (fun p => mem g (groups_of p)) (peers db), db).
Proof.
  intros Hg. unfold list_peers, bind, gets, ret.
  destruct (String.eqb_spec g ""); [contradiction | reflexivity].
Qed.

Lemma list_peers_by_network (network_id : string) (db : DB) :
  network_id <> "" ->
  list_peers (Some network_id) None db
  = Ok (order_by_name (peers_of network_id db), db).
Proof.
  intros Hn. unfold list_peers, bind, gets, ret.
  destruct (String.eqb_spec network_id ""); [contradiction | reflexivity].
Qed.

Lemma valid_group_nonempty (g : string) : In g VALID_GROUPS -> g <> "".
Proof.
  intros H E. subst g. simpl in H.
  repeat (destruct H as [H | H]; [discriminate |]). exact H.
Qed.

(** X11.  After a successful [assign_group], [list_peers(group=...)] for that
    group returns, in table order, every row of the given name, and
    besides them only rows that list the group themselves. *)
Theorem list_peers_after_assign_group (peer_name group : string)
    (db db1 : DB) :
  assign_group peer_name group db = Ok (tt, db1) ->
  exists rows,
    list_peers None (Some group) db1 = Ok (rows, db1)
    /\ (forall p, In p (peers db1) -> p_name p = peer_name -> In p rows)
    /\ (forall p, In p rows ->
                  In p (peers db1) /\ In group (groups_of p)).
Proof.
  intros H.
  apply assign_group_inv in H. destruct H as [p0 [Hvalid [_ Hdb1]]].
  eexists. split; [apply list_peers_by_group, valid_group_nonempty, Hvalid |].
  split.
  - intros p Hp Hname. apply filter_In. split; [assumption |].
    rewrite Hdb1 in Hp. simpl in Hp. unfold with_groups in Hp.
    apply in_map_iff in Hp. destruct Hp as [q [<- Hq]].
    destruct (String.eqb_spec (p_name q) peer_name) as [E | E];
      [| contradiction].
    unfold groups_of. cbn [p_groups set_groups]. apply mem_after_append.
  - intros p Hp. apply filter_In in Hp. destruct Hp as [Hp Hmem].
    split; [assumption | now apply mem_In].
Qed.

Lemma peers_of_without_peer (network_id peer_name : string)
    (l : list PeerRow) :
  filter (fun p => p_network_id p =? network_id)
         (without_peer network_id peer_name l)
  = filter (fun p => negb (p_name p =? peer_name))
           (filter (fun p => p_network_id p =? network_id) l).
Proof.
  unfold without_peer.
  induction l as [|a l IH]; simpl; [reflexivity |].
  destruct (p_network_id a =? network_id) eqn:En; simpl.
  - destruct (p_name a =? peer_name); simpl.
    + apply IH.
    + rewrite En. f_equal. apply IH.
  - rewrite En. apply IH.
Qed.

(** X12.  [list_peers(network_id)] returns the rows of the network in the
    order of their names.  After a successful [add_peer] it returns the
    rows it returned before, in the same order, with the new row between
    the rows of smaller names and the rows of greater names, wherever the
    new row lies in the table; and the new row is in no group listing. *)
Theorem list_peers_after_add_peer (network_id name : string)
    (ip : option string) (uuid4 public_key : string) (db : DB)
    (peer_id : string) (db' : DB) :
  network_id <> "" ->
  add_peer network_id name ip uuid4 public_key db = Ok (peer_id, db') ->
  exists row before after,
    p_id row = peer_id /\ p_name row = name
    /\ peers db' = (peers db ++ [row])%list
    /\ list_peers (Some network_id) None db
       = Ok ((before ++ after)%list, db)
    /\ list_peers (Some network_id) None db'
       = Ok ((before ++ row :: after)%list, db')
    /\ Sorted name_le (before ++ row :: after)
    /\ (forall q, In q before -> name_lt q row)
    /\ (forall q, In q after -> name_lt row q)
    /\ forall nid g rows,
         g <> "" -> list_peers nid (Some g) db' = Ok (rows, db') ->
         ~ In row rows.
Proof.
  intros Hnid Hadd.
  pose proof (add_peer_ok_keys _ _ _ _ _ _ _ _ Hadd) as [_ [_ Hfresh]].
  apply add_peer_inv in Hadd.
  destruct Hadd as [n [ip' [_ [_ [-> ->]]]]].
  set (row := new_peer_row network_id uuid4 name ip' public_key).
  assert (Hnames : forall q, In q (peers_of network_id db) ->
                             p_name q <> p_name row).
  { intros q Hq E. apply filter_In in Hq. destruct Hq as [Hq Hn].
    apply String.eqb_eq in Hn. apply Hfresh. apply in_map_iff.
    exists q. split; [| assumption]. now rewrite Hn, E. }
  assert (Hlist : order_by_name (peers_of network_id db ++ [row])
                  = insert_by_name row
                      (order_by_name (peers_of network_id db)))
    by (apply order_by_name_snoc, Hnames).
  destruct (insert_by_name_split row _
              (order_by_name_sorted (peers_of network_id db)))
    as [before [after [Hrows [Hins [Hb Ha]]]]].
  exists row, before, after.
  split; [reflexivity |]. split; [reflexivity |]. split; [reflexivity |].
  split; [| split; [| split; [| split; [| split]]]].
  - rewrite list_peers_by_network by assumption. now rewrite Hrows.
  - rewrite list_peers_by_network by assumption.
    unfold peers_of. simpl. rewrite filter_app. simpl.
    rewrite String.eqb_refl. fold (peers_of network_id db). fold row.
    now rewrite Hlist, Hins.
  - rewrite <- Hins. apply insert_by_name_sorted, order_by_name_sorted.
  - intros q Hq. apply string_leb_false_ltb. auto.
  - intros q Hq. apply string_leb_ne_ltb; [now apply Ha |].
    intros E. apply (Hnames q); [| now symmetry].
    apply (Permutation_in _ (order_by_name_perm _)).
    rewrite Hrows. apply in_or_app. now right.
  - intros nid g rows Hg Hlist' Hin.
    unfold list_peers, bind, gets, ret in Hlist'.
    destruct (String.eqb_spec g ""); [contradiction |].
    assert (Hsub : exists all, rows = filter (fun p => mem g (groups_of p)) all).
    { destruct nid as [x|]; [destruct (x =? "") |];
        inversion Hlist'; eexists; reflexivity. }
    destruct Hsub as [all ->]. apply filter_In in Hin.
    destruct Hin as [_ Hmem]. discriminate.
Qed.

(** X13.  [list_peers(network_id)] returns the rows of the network in the
    order of their names.  After [remove_peer] it returns the rows it
    returned before without those of the removed name, the others in the
    same order. *)
Theorem list_peers_after_remove_peer (network_id peer_name : string)
    (db : DB) :
  network_id <> "" ->
  exists rows db',
    list_peers (Some network_id) None db = Ok (rows, db)
    /\ Sorted name_le rows
    /\ Permutation rows (peers_of network_id db)
    /\ remove_peer network_id peer_name db = Ok (tt, db')
    /\ list_peers (Some network_id) None db'
       = Ok (filter (fun p => negb (p_name p =? peer_name)) rows, db').
Proof.
  intros Hnid. eexists. eexists.
  split; [now apply list_peers_by_network |].
  split; [apply order_by_name_sorted |].
  split; [apply order_by_name_perm |].
  split; [apply remove_peer_total |].
  rewrite list_peers_by_network by assumption. do 2 f_equal.
  unfold peers_of. simpl. rewrite peers_of_without_peer.
  apply order_by_name_filter.
Qed.

End MoreProperties.

(** ** ping_peer *)

(** What a [ping_peer] that returns did. *)
Lemma ping_peer_inv (peer_name : string) (hash : Z) (handshake now : string)
    (db : DB) (r : PingResult) (db' : DB) :
  ping_peer peer_name hash handshake now db = Ok (r, db') ->
  exists p0,
    find (fun p => p_name p =? peer_name) (peers db) = Some p0
    /\ r = {| pr_peer := peer_name; pr_ip := p_ip p0;
              pr_reachable := negb (hash mod 3 =? 0)%Z;
              pr_latency_ms := if negb (hash mod 3 =? 0)%Z
                               then Some (hash mod 100 + 5)%Z else None;
              pr_timestamp := now |}
    /\ db' = if negb (hash mod 3 =? 0)%Z
             then {| networks := networks db;
                     peers := map (fun p => if p_id p =? p_id p0
                                            then set_connected handshake p
                                            else p) (peers db) |}
             else db.
Proof.
  unfold ping_peer, bind, gets.
  destruct (find _ (peers db)) as [p0|]; simpl; [| discriminate].
  destruct (negb (hash mod 3 =? 0)%Z); simpl;
    intros E; injection E as <- <-; exists p0; auto.
Qed.

(** X14.  [ping_peer] for a name no peer row carries raises
    [ValueError "Peer ... not found"]. *)
Theorem ping_peer_unknown_peer (peer_name : string) (hash : Z)
    (handshake now : string) (db : DB) :
  ~ In peer_name (map p_name (peers db)) ->
  ping_peer peer_name hash handshake now db
  = Raise (ValueError ("Peer " ++ peer_name ++ " not found")).
Proof.
  intros Hnone. unfold ping_peer, bind, gets.
  replace (find _ (peers db)) with (@None PeerRow); [reflexivity |].
  symmetry. apply find_none_iff.
  exact (proj1 (existsb_false _ _)
           (proj2 (in_map_existsb p_name peer_name (peers db)) Hnone)).
Qed.

(** X15.  For a stored name [ping_peer] returns; the peer is reported reachable
    exactly when the hash of its name is not a multiple of 3, in which
    case the latency lies between 5 and 104 ms; otherwise no latency is
    reported and the database is left as it was. *)
Theorem ping_peer_report (peer_name : string) (hash : Z)
    (handshake now : string) (db : DB) :
  In peer_name (map p_name (peers db)) ->
  exists r db',
    ping_peer peer_name hash handshake now db = Ok (r, db')
    /\ (pr_reachable r = true <-> (hash mod 3 <> 0)%Z)
    /\ (pr_reachable r = true ->
        exists ms, pr_latency_ms r = Some ms /\ (5 <= ms <= 104)%Z)
    /\ (pr_reachable r = false -> pr_latency_ms r = None /\ db' = db).
Proof.
  intros Hin. apply in_map_iff in Hin. destruct Hin as [p [Hname Hp]].
  destruct (find_some_of_In (fun q => p_name q =? peer_name) (peers db) p Hp)
    as [p0 Hfind]; [now apply String.eqb_eq |].
  unfold ping_peer, bind, gets. rewrite Hfind. simpl.
  destruct (Z.eqb_spec (hash mod 3) 0) as [E | E]; simpl.
  - do 2 eexists. split; [reflexivity |]. simpl.
    split; [split; [discriminate | contradiction] |].
    split; [discriminate | auto].
  - do 2 eexists. split; [reflexivity |]. simpl.
    split; [split; auto |]. split; [| discriminate].
    intros _. eexists. split; [reflexivity |].
    pose proof (Z.mod_pos_bound hash 100). lia.
Qed.

Lemma Forall2_map_self {A} (R : A -> A -> Prop) (g : A -> A) (l : list A) :
  (forall a, R a (g a)) -> Forall2 R l (map g l).
Proof.
  intros H. induction l; simpl; constructor; auto.
Qed.

Lemma ping_peer_rows (peer_name : string) (hash : Z)
    (handshake now : string) (db : DB) (r : PingResult) (db' : DB) :
  ping_peer peer_name hash handshake now db = Ok (r, db') ->
  networks db' = networks db
  /\ Forall2 (pinged handshake) (peers db) (peers db').
Proof.
  intros H. apply ping_peer_inv in H.
  destruct H as [p0 [Hfind [-> ->]]].
  destruct (negb (hash mod 3 =? 0)%Z); simpl.
  - split; [reflexivity |].
    apply Forall2_map_self. intros p. unfold pinged.
    destruct (p_id p =? p_id p0); auto.
  - split; [reflexivity |].
    rewrite <- (map_id (peers db)) at 2.
    apply Forall2_map_self. intros p. now left.
Qed.

Lemma ping_peer_marked (peer_name : string) (hash : Z)
    (handshake now : string) (db : DB) (r : PingResult) (db' : DB) :
  ping_peer peer_name hash handshake now db = Ok (r, db') ->
  pr_reachable r = true ->
  exists p0,
    find (fun p => p_name p =? peer_name) (peers db) = Some p0
    /\ In (set_connected handshake p0) (peers db').
Proof.
  intros H. apply ping_peer_inv in H.
  destruct H as [p0 [Hfind [-> ->]]]. simpl.
  destruct (negb (hash mod 3 =? 0)%Z); [| discriminate].
  intros _. exists p0. split; [assumption |]. simpl.
  apply in_map_iff. exists p0. rewrite String.eqb_refl.
  split; [reflexivity | exact (proj1 (find_some _ _ Hfind))].
Qed.

(** X16.  A [ping_peer] that returns leaves the networks alone and each peer
    row either untouched or with [status] set to ["connected"] and
    [last_handshake] stamped; when the peer is reported reachable, the
    first row of that name is among the marked ones. *)
Theorem ping_peer_only_marks (peer_name : string) (hash : Z)
    (handshake now : string) (db : DB) (r : PingResult) (db' : DB) :
  ping_peer peer_name hash handshake now db = Ok (r, db') ->
  networks db' = networks db
  /\ Forall2 (pinged handshake) (peers db) (peers db')
  /\ (pr_reachable r = true ->
      exists p0,
        find (fun p => p_name p =? peer_name) (peers db) = Some p0
        /\ In (set_connected handshake p0) (peers db')).
Proof.
  intros H. destruct (ping_peer_rows _ _ _ _ _ _ _ H) as [Hnet Hrows].
  split; [exact Hnet |]. split; [exact Hrows |].
  exact (ping_peer_marked _ _ _ _ _ _ _ H).
Qed.

Lemma Forall2_in_right {A B} (R : A -> B -> Prop) (l : list A)
    (l' : list B) (y : B) :
  Forall2 R l l' -> In y l' -> exists x, In x l /\ R x y.
Proof.
  intros H. induction H as [|a b l l' Hab _ IH]; simpl; [intros [] |].
  intros [<- | Hy]; [eauto |].
  destruct (IH Hy) as [x [Hx Hxy]]. eauto.
Qed.

Lemma pinged_map {B} (f : PeerRow -> B) (handshake : string)
    (l l' : list PeerRow) :
  (forall p, f (set_connected handshake p) = f p) ->
  Forall2 (pinged handshake) l l' -> map f l' = map f l.
Proof.
  intros Hf H. induction H as [|p p' l l' [-> | ->] _ IH]; simpl;
    [reflexivity | |]; rewrite IH; [reflexivity | now rewrite Hf].
Qed.

Lemma pinged_filter_length (f : PeerRow -> bool) (handshake : string)
    (l l' : list PeerRow) :
  (forall p, f (set_connected handshake p) = f p) ->
  Forall2 (pinged handshake) l l' ->
  List.length (filter f l') = List.length (filter f l).
Proof.
  intros Hf H. induction H as [|p p' l l' [-> | ->] _ IH]; simpl;
    [reflexivity | |]; [| rewrite Hf]; destruct (f p); simpl; now rewrite IH.
Qed.

(** X17.  A ping changes nothing the registry's invariants speak of: the keys,
    the references, the match between [peer_count] and the peer rows, the
    uniqueness of IPs and the validity of the group lists all survive
    it. *)
Theorem ping_peer_keeps_invariants (peer_name : string) (hash : Z)
    (handshake now : string) (db : DB) (r : PingResult) (db' : DB) :
  ping_peer peer_name hash handshake now db = Ok (r, db') ->
  (keys_unique db -> keys_unique db')
  /\ (refs_valid db -> refs_valid db')
  /\ (counts_match db -> counts_match db')
  /\ (ip_unique db -> ip_unique db')
  /\ (groups_valid db -> groups_valid db').
Proof.
  intros H. apply ping_peer_rows in H. destruct H as [Hnet Hrows].
  split; [| split; [| split; [| split]]].
  - unfold keys_unique. rewrite Hnet.
    rewrite (pinged_map p_id _ _ _ (fun _ => eq_refl) Hrows).
    rewrite (pinged_map (fun p => (p_network_id p, p_name p)) _ _ _
               (fun _ => eq_refl) Hrows). tauto.
  - unfold refs_valid. rewrite Hnet. intros Hdb p' Hp'.
    assert (Hin : In (p_network_id p') (map p_network_id (peers db')))
      by now apply in_map.
    rewrite (pinged_map p_network_id _ _ _ (fun _ => eq_refl) Hrows) in Hin.
    apply in_map_iff in Hin. destruct Hin as [p [<- Hp]]. auto.
  - unfold counts_match, row_count, peers_of. rewrite Hnet.
    intros Hdb n Hn.
    rewrite (pinged_filter_length (fun p => p_network_id p =? n_id n)
               _ _ _ (fun _ => eq_refl) Hrows). auto.
  - unfold ip_unique, held_ips, held_in. intros Hdb nid.
    specialize (Hdb nid).
    replace (map p_ip (filter (fun p => p_network_id p =? nid) (peers db')))
      with (map p_ip (filter (fun p => p_network_id p =? nid) (peers db)));
      [assumption |].
    clear Hdb. induction Hrows as [|p p' l l' [-> | ->] _ IH]; simpl;
      [reflexivity | |]; destruct (p_network_id p =? nid); simpl;
      now rewrite IH.
  - unfold groups_valid. intros Hdb p' Hp'.
    destruct (Forall2_in_right _ _ _ _ Hrows Hp') as [p [Hp [-> | ->]]];
      [auto |].
    exact (Hdb p Hp).
Qed.

Lemma pinged_connected_le (handshake : string) (l l' : list PeerRow) :
  Forall2 (pinged handshake) l l' ->
  List.length (filter (fun p => p_status p =? "connected") l)
  <= List.length (filter (fun p => p_status p =? "connected") l').
Proof.
  intros H. induction H as [|p p' l l' [-> | ->] _ IH]; [simpl; lia | |].
  - simpl. destruct (p_status p =? "connected"); simpl; lia.
  - change (filter (fun q => p_status q =? "connected")
                   (set_connected handshake p :: l'))
      with (set_connected handshake p
            :: filter (fun q => p_status q =? "connected") l').
    simpl. destruct (p_status p =? "connected"); simpl; lia.
Qed.

(** X18.  No ping lowers the number of connected peers [get_status] reports,
    and after a ping that reports the peer reachable that number is at
    least one. *)
Theorem ping_peer_then_get_status (peer_name : string) (hash : Z)
    (handshake now t t' : string) (db : DB) (r : PingResult) (db' : DB) :
  ping_peer peer_name hash handshake now db = Ok (r, db') ->
  exists st st',
    get_status t db = Ok (st, db)
    /\ get_status t' db' = Ok (st', db')
    /\ (st_connected_peers st <= st_connected_peers st')%Z
    /\ (pr_reachable r = true -> (1 <= st_connected_peers st')%Z).
Proof.
  intros H. pose proof (ping_peer_marked _ _ _ _ _ _ _ H) as Hmarked.
  apply ping_peer_rows in H. destruct H as [_ Hrows].
  do 2 eexists. split; [reflexivity |]. split; [reflexivity |]. simpl.
  split.
  - apply Nat2Z.inj_le. now apply (pinged_connected_le handshake).
  - intros Hr. destruct (Hmarked Hr) as [p0 [_ Hin]].
    assert (Hf : In (set_connected handshake p0)
                    (filter (fun p => p_status p =? "connected") (peers db')))
      by (apply filter_In; split; [assumption | reflexivity]).
    destruct (filter _ (peers db')); [destruct Hf | simpl; lia].
Qed.

(** ** generate_config *)

Lemma hd_error_filter {A} (f : A -> bool) (l : list A) :
  hd_error (filter f l) = find f l.
Proof.
  induction l as [|a l IH]; simpl; [reflexivity |].
  destruct (f a); [reflexivity | exact IH].
Qed.

(** X19.  [generate_config] raises [ValueError "Peer ... not found"] when no
    peer row of that name refers to a stored network, in particular when
    no peer row has that name. *)
Theorem generate_config_unknown_peer (peer_name private_key : string)
    (db : DB) :
  (forall p, In p (peers db) -> p_name p = peer_name ->
             ~ In (p_network_id p) (map n_id (networks db))) ->
  generate_config peer_name private_key db
  = Raise (ValueError ("Peer " ++ peer_name ++ " not found")).
Proof.
  intros Hnone. unfold generate_config, bind, gets.
  replace (joined peer_name db) with (@nil (PeerRow * NetworkRow));
    [reflexivity |].
  symmetry. unfold joined.
  induction (peers db) as [|a l IH]; simpl; [reflexivity |].
  destruct (String.eqb_spec (p_name a) peer_name) as [E | E]; simpl.
  - replace (filter _ (networks db)) with (@nil NetworkRow).
    + simpl. apply IH. intros p Hp. apply Hnone. now right.
    + symmetry. specialize (Hnone a (or_introl eq_refl) E).
      apply in_map_existsb in Hnone.
      pose proof (proj1 (existsb_false _ _) Hnone) as Hall. clear -Hall.
      induction (networks db) as [|n ns IHn]; simpl; [reflexivity |].
      rewrite (Hall n (or_introl eq_refl)). apply IHn.
      intros x Hx. apply Hall. now right.
  - apply IH. intros p Hp. apply Hnone. now right.
Qed.

Lemma find_incremented (network_id : string) (l : list NetworkRow)
    (n : NetworkRow) :
  find (fun n => n_id n =? network_id) l = Some n ->
  find (fun n => n_id n =? network_id) (incremented network_id l)
  = Some (set_peer_count (n_peer_count n + 1) n).
Proof.
  intros Hfind. unfold incremented.
  rewrite find_map_preserved
    by (intros x; destruct (n_id x =? network_id) eqn:E; simpl;
        now rewrite E).
  rewrite Hfind. simpl.
  now rewrite (proj2 (find_some _ _ Hfind)).
Qed.

Section MoreProperties2.
Context {lib : Ipaddress}.

(** X20.  The configuration of a peer just added under a name no other row
    carries: its address with the fixed suffix [/24], the private key drawn
    for this rendering, the public key stored for the peer itself, and the
    CIDR text of its network. *)
Theorem generate_config_after_add_peer (network_id name : string)
    (ip : option string) (uuid4 public_key private_key : string) (db : DB)
    (peer_id : string) (db' : DB) :
  ~ In name (map p_name (peers db)) ->
  add_peer network_id name ip uuid4 public_key db = Ok (peer_id, db') ->
  exists n row,
    find (fun n => n_id n =? network_id) (networks db) = Some n
    /\ In row (peers db') /\ p_id row = peer_id
    /\ generate_config name private_key db'
       = Ok (config_text (p_ip row) private_key public_key (n_cidr n), db').
Proof.
  intros Hfresh Hadd. apply add_peer_inv in Hadd.
  destruct Hadd as [n [ip' [Hfind [_ [-> ->]]]]].
  exists n, (new_peer_row network_id uuid4 name ip' public_key).
  split; [assumption |]. split; [apply in_or_app; right; now left |].
  split; [reflexivity |].
  unfold generate_config, bind, gets, joined. simpl.
  rewrite filter_app. simpl. rewrite String.eqb_refl.
  replace (filter (fun p => p_name p =? name) (peers db))
    with (@nil PeerRow).
  - simpl. rewrite app_nil_r.
    pose proof (hd_error_filter (fun n0 => n_id n0 =? network_id)
                  (incremented network_id (networks db))) as Hhd.
    rewrite (find_incremented _ _ _ Hfind) in Hhd.
    destruct (filter _ (incremented network_id (networks db)))
      as [|m ms]; simpl in Hhd; [discriminate |].
    injection Hhd as ->. reflexivity.
  - symmetry. apply in_map_existsb in Hfresh.
    pose proof (proj1 (existsb_false _ _) Hfresh) as Hall. clear -Hall.
    induction (peers db) as [|a l IH]; simpl; [reflexivity |].
    rewrite (Hall a (or_introl eq_refl)). apply IH.
    intros x Hx. apply Hall. now right.
Qed.

End MoreProperties2.

(** ** export_network_map *)

Lemma peer_lines_type_error (l : list PeerRow) :
  (exists p, In p l /\ p_ip p = None) ->
  exists msg, peer_lines l = TypeError msg.
Proof.
  induction l as [|q l IH]; intros [p [Hp Hip]]; [destruct Hp |].
  simpl. unfold peer_line.
  destruct (p_ip q) as [ip|] eqn:Hq; [| eexists; reflexivity].
  destruct Hp as [-> | Hp]; [congruence |].
  destruct (IH (ex_intro _ p (conj Hp Hip))) as [msg ->].
  eexists; reflexivity.
Qed.

Lemma peer_lines_formatted (l : list PeerRow) :
  (forall p, In p l -> p_ip p <> None) ->
  exists body,
    peer_lines l = Formatted body
    /\ Forall2 (fun p line => peer_line p = Formatted line) l body.
Proof.
  induction l as [|q l IH]; intros Hall; simpl.
  - exists []. split; [reflexivity | constructor].
  - destruct (peer_line q) as [line | msg] eqn:Hq.
    + destruct IH as [body [-> Hbody]];
        [intros p Hp; apply Hall; now right |].
      exists (line :: body). split; [reflexivity |]. now constructor.
    + exfalso. unfold peer_line in Hq.
      destruct (p_ip q) eqn:Hip; [discriminate |].
      exact (Hall q (or_introl eq_refl) Hip).
Qed.

(** X21.  [export_network_map] raises [TypeError] exactly when some peer row of
    the network has no IP: one peer stored without an address makes the
    map of its whole network unprintable. *)
Theorem export_network_map_type_error (network_id : string) (db : DB) :
  (exists p, In p (peers_of network_id db) /\ p_ip p = None)
  <-> (exists msg, export_network_map network_id db = TypeError msg).
Proof.
  unfold export_network_map, map_lines. split.
  - intros [p [Hp Hip]].
    destruct (peer_lines_type_error (order_by_name (peers_of network_id db)))
      as [msg ->]; [| eexists; reflexivity].
    exists p. split; [| assumption].
    apply (Permutation_in _ (Permutation_sym (order_by_name_perm _))), Hp.
  - intros [msg H].
    destruct (peer_lines (order_by_name (peers_of network_id db)))
      as [body | msg'] eqn:Hlines; [discriminate |].
    clear H.
    assert (Hn : ~ (forall p, In p (order_by_name (peers_of network_id db))
                              -> p_ip p <> None)).
    { intros Hall. destruct (peer_lines_formatted _ Hall) as [b [Hb _]].
      congruence. }
    assert (Hex : forall l, ~ (forall p, In p l -> p_ip p <> None) ->
                            exists p, In p l /\ p_ip p = None).
    { clear. induction l as [|q l IH]; intros H.
      - exfalso. apply H. intros p [].
      - destruct (p_ip q) eqn:Hq.
        + destruct IH as [p [Hp Hip]].
          * intros Hall. apply H. intros p [<- | Hp]; [congruence | auto].
          * exists p. split; [now right | assumption].
        + exists q. split; [now left | assumption]. }
    destruct (Hex _ Hn) as [p [Hp Hip]]. exists p. split; [| assumption].
    apply (Permutation_in _ (order_by_name_perm _)), Hp.
Qed.

(** X22.  When every peer of the network has an IP, the map is the three header
    lines, one line per peer of the network with the peers in ascending
    order of name, and the closing line, joined by newlines; the title is
    the network's name, or ["Unknown"] when the network is not stored. *)
Theorem export_network_map_layout (network_id : string) (db : DB) :
  (forall p, In p (peers_of network_id db) -> p_ip p <> None) ->
  exists rows body,
    Permutation rows (peers_of network_id db)
    /\ Sorted name_le rows
    /\ Forall2 (fun p line => peer_line p = Formatted line) rows body
    /\ export_network_map network_id db
       = Formatted
           (String.concat newline
              (["╔════════════════════════════════════════╗";
                ("║ Network: "
                 ++ ljust 31
                      match find (fun n => n_id n =? network_id)
                                 (networks db) with
                      | Some n => n_name n
                      | None => "Unknown"
                      end
                 ++ " ║")%string;
                "╠════════════════════════════════════════╣"]
               ++ body
               ++ ["╚════════════════════════════════════════╝"])%list).
Proof.
  intros Hall.
  destruct (peer_lines_formatted (order_by_name (peers_of network_id db)))
    as [body [Hlines Hbody]].
  { intros p Hp. apply Hall.
    apply (Permutation_in _ (order_by_name_perm _)), Hp. }
  exists (order_by_name (peers_of network_id db)), body.
  split; [apply order_by_name_perm |].
  split; [apply order_by_name_sorted |].
  split; [assumption |].
  unfold export_network_map, map_lines. rewrite Hlines. reflexivity.
Qed.

(** *** Widths *)

Lemma len_append (s t : string) : len (s ++ t) = len s + len t.
Proof.
  induction s as [|c s IH]; simpl; [reflexivity |]. rewrite IH. lia.
Qed.

Lemma len_spaces (n : nat) : len (spaces n) = n.
Proof. induction n as [|n IH]; simpl; [reflexivity | now rewrite IH]. Qed.

Lemma len_ljust (width : nat) (s : string) :
  len (ljust width s) = Nat.max width (len s).
Proof. unfold ljust. rewrite len_append, len_spaces. lia. Qed.

Lemma peer_line_len (p : PeerRow) (line : string) :
  peer_line p = Formatted line ->
  exists ip,
    p_ip p = Some ip
    /\ len line = 7 + Nat.max 16 (len (p_name p)) + Nat.max 18 (len ip).
Proof.
  unfold peer_line. destruct (p_ip p) as [ip|]; [| discriminate].
  intros E. injection E as <-. exists ip. split; [reflexivity |].
  change (len ("║ "
               ++ (if p_status p =? "connected" then "● " else "○ ")
               ++ ljust 16 (p_name p) ++ " " ++ ljust 18 ip ++ " │")
          = 7 + Nat.max 16 (len (p_name p)) + Nat.max 18 (len ip)).
  rewrite !len_append, !len_ljust.
  change (len "║ ") with 2. change (len " ") with 1.
  change (len " │") with 2.
  destruct (p_status p =? "connected");
    [change (len "● ") with 2 | change (len "○ ") with 2]; lia.
Qed.

(** X23.  The box does not line up: the frame lines are 42 characters wide,
    while a peer line is at least 41 wide and exactly 41 for a name of at
    most 16 and an address of at most 18 characters. *)
Theorem peer_line_width (p : PeerRow) (line : string) :
  peer_line p = Formatted line ->
  len "╔════════════════════════════════════════╗" = 42
  /\ len "╚════════════════════════════════════════╝" = 42
  /\ 41 <= len line
  /\ (len (p_name p) <= 16 ->
      (forall ip, p_ip p = Some ip -> len ip <= 18) ->
      len line = 41).
Proof.
  intros H. destruct (peer_line_len _ _ H) as [ip [Hip Hlen]].
  split; [reflexivity |]. split; [reflexivity |].
  rewrite Hlen. split; [lia |].
  intros Hname Hall. specialize (Hall ip Hip). lia.
Qed.

(** ** _populate_defaults *)

Section ConstructionProperties.
Context {lib : Ipaddress}.

(** What a successful [create_network] did. *)
Lemma create_network_inv (name cidr description uuid4 now : string)
    (db : DB) (network_id : string) (db' : DB) :
  create_network name cidr description uuid4 now db = Ok (network_id, db') ->
  network_id = uuid4
  /\ db' = {| networks :=
                (networks db
                 ++ [{| n_id := uuid4; n_name := name; n_cidr := cidr;
                        n_description := description;
                        n_created_at := now; n_peer_count := 0 |}])%list;
              peers := peers db |}.
Proof.
  unfold create_network.
  destruct (ip_network cidr) as [net | [msg | msg]]; try discriminate.
  unfold bind, insert_network, ret. simpl.
  destruct (existsb _ (networks db)); [discriminate |].
  destruct (existsb _ (networks db)); [discriminate |].
  intros E. injection E as <- <-. split; reflexivity.
Qed.

Lemma add_default_peers_names (peer_uuid public_key : nat -> string)
    (network_id : string) (l : list (nat * string)) (db : DB)
    (r : result unit) (db' : DB) :
  add_default_peers peer_uuid public_key network_id l db = (r, db') ->
  map n_name (networks db') = map n_name (networks db).
Proof.
  revert db. induction l as [|[i peer_name] l IH]; intros db; simpl.
  - intros E. injection E as _ <-. reflexivity.
  - unfold and_then, commit.
    destruct (add_peer _ _ _ _ _ db) as [[peer_id db1] | e] eqn:Hadd.
    + intros H. rewrite (IH _ H).
      apply add_peer_inv in Hadd. destruct Hadd as [n [ip' [_ [_ [_ ->]]]]].
      simpl. now apply map_incremented.
    + intros E. injection E as _ <-. reflexivity.
Qed.

Lemma add_default_peers_calls (peer_uuid public_key : nat -> string)
    (network_id : string) (l : list (nat * string)) (db db' : DB) :
  add_default_peers peer_uuid public_key network_id l db = (Ok tt, db') ->
  db' = exec_all
          (map (fun '(i, peer_name) =>
                  AddPeer network_id peer_name
                          (Some ("10.0.0." ++ str_nat (i + 2)))
                          (peer_uuid i) (public_key i)) l)
          db.
Proof.
  revert db. induction l as [|[i peer_name] l IH]; intros db.
  - simpl. intros E. injection E as <-. reflexivity.
  - cbn [add_default_peers]. unfold and_then, commit.
    destruct (add_peer _ _ _ _ _ db) as [[peer_id db1] | e] eqn:Hadd;
      [| discriminate].
    intros H. rewrite (IH _ H). rewrite map_cons.
    change (exec_all (?c :: ?cs) db) with (exec_all cs (exec c db)).
    cbv beta iota. unfold exec. now rewrite Hadd.
Qed.

(** X24.  Construction is idempotent: once [_populate_defaults] has completed,
    running it again, with whatever fresh identifiers and keys, changes
    nothing. *)
Theorem populate_defaults_idempotent
    (network_uuid now network_uuid' now' : string)
    (peer_uuid public_key peer_uuid' public_key' : nat -> string)
    (db db' : DB) :
  _populate_defaults network_uuid now peer_uuid public_key db
  = (Ok tt, db') ->
  _populate_defaults network_uuid' now' peer_uuid' public_key' db'
  = (Ok tt, db').
Proof.
  unfold _populate_defaults.
  destruct (existsb _ (networks db)) eqn:Hguard.
  - intros E. injection E as <-. now rewrite Hguard.
  - unfold and_then at 1. unfold commit.
    destruct (create_network _ _ _ _ _ db) as [[network_id db1] | e] eqn:Hc;
      [| discriminate].
    intros Hloop.
    pose proof (add_default_peers_names _ _ _ _ _ _ _ Hloop) as Hnames.
    apply create_network_inv in Hc. destruct Hc as [_ ->]. simpl in Hnames.
    assert (Hin : In PREDEFINED_NETWORK (map n_name (networks db'))).
    { rewrite Hnames, map_app. apply in_or_app. right. now left. }
    destruct (existsb (fun n => n_name n =? PREDEFINED_NETWORK)
                      (networks db')) eqn:Hguard'; [reflexivity |].
    apply in_map_existsb in Hguard'. contradiction.
Qed.

(** X25.  When [_populate_defaults] completes, the store it leaves is the one
    reached by the calls it is made of: nothing on a store that has the
    predefined network, otherwise one [create_network] and then one
    [add_peer] per predefined peer with the addresses 10.0.0.2 onwards. *)
Theorem populate_defaults_as_calls (network_uuid now : string)
    (peer_uuid public_key : nat -> string) (db db' : DB) :
  _populate_defaults network_uuid now peer_uuid public_key db
  = (Ok tt, db') ->
  db' = exec_all (populate_defaults network_uuid now peer_uuid public_key db)
                 db.
Proof.
  unfold _populate_defaults, populate_defaults.
  destruct (existsb _ (networks db)).
  - intros E. injection E as <-. reflexivity.
  - unfold and_then at 1. unfold commit.
    destruct (create_network _ _ _ _ _ db) as [[network_id db1] | e] eqn:Hc;
      [| discriminate].
    intros Hloop.
    change (exec_all (?c :: ?cs) db) with (exec_all cs (exec c db)).
    unfold exec. rewrite Hc.
    pose proof (create_network_inv _ _ _ _ _ _ _ _ Hc) as [-> _].
    exact (add_default_peers_calls _ _ _ _ _ _ Hloop).
Qed.

End ConstructionProperties.

(** ** get_status against the peer table *)

Lemma sum_indicator (y : string) (ids : list string) :
  NoDup ids -> In y ids ->
  fold_right Z.add 0%Z
    (map (fun x => if (y =? x)%string then 1%Z else 0%Z) ids) = 1%Z.
Proof.
  induction ids as [|x ids IH]; simpl; [intros _ [] |].
  intros Hnd Hin. apply NoDup_cons_iff in Hnd. destruct Hnd as [Hx Hnd].
  destruct (String.eqb_spec y x) as [-> | Hne].
  - replace (fold_right Z.add 0%Z _) with 0%Z; [reflexivity |].
    symmetry. clear -Hx. induction ids as [|z ids IH]; simpl; [reflexivity |].
    destruct (String.eqb_spec x z) as [-> | _].
    + exfalso. apply Hx. now left.
    + rewrite IH; [reflexivity |]. intros H. apply Hx. now right.
  - destruct Hin as [-> | Hin]; [contradiction |]. rewrite IH; auto.
Qed.

Lemma sum_rows_per_network (ids : list string) (l : list PeerRow) :
  NoDup ids ->
  (forall p, In p l -> In (p_network_id p) ids) ->
  fold_right Z.add 0%Z
    (map (fun x => Z.of_nat
                     (List.length
                        (filter (fun p => (p_network_id p =? x)%string) l)))
         ids)
  = Z.of_nat (List.length l).
Proof.
  intros Hnd. induction l as [|p l IH]; intros Hrefs.
  - clear. induction ids as [|x ids IHids]; simpl; [reflexivity |].
    exact IHids.
  - assert (Hsplit : forall xs,
      fold_right Z.add 0%Z
        (map (fun x => Z.of_nat
                (List.length
                   (filter (fun q => (p_network_id q =? x)%string) (p :: l))))
             xs)
      = (fold_right Z.add 0%Z
           (map (fun x => if (p_network_id p =? x)%string
                          then 1%Z else 0%Z) xs)
         + fold_right Z.add 0%Z
             (map (fun x => Z.of_nat
                     (List.length
                        (filter (fun q => (p_network_id q =? x)%string) l)))
                  xs))%Z).
    { induction xs as [|x xs IHxs]; [reflexivity |].
      cbn [map fold_right]. rewrite IHxs. cbn [filter].
      destruct (p_network_id p =? x)%string; cbn [List.length]; lia. }
    rewrite Hsplit, IH by (intros q Hq; apply Hrefs; now right).
    rewrite sum_indicator by (auto; apply Hrefs; now left).
    cbn [List.length]. lia.
Qed.

(** X26.  On a database whose keys and references are sound and whose counters
    match, the [total_peers] that [get_status] reports is the number of
    peer rows. *)
Theorem get_status_total_counts_rows (now : string) (db : DB) :
  keys_unique db -> refs_valid db -> counts_match db ->
  exists st,
    get_status now db = Ok (st, db)
    /\ st_total_peers st = Z.of_nat (List.length (peers db)).
Proof.
  intros [Hids _] Hrefs Hcounts.
  eexists. split; [reflexivity |]. simpl.
  rewrite <- (sum_rows_per_network (map n_id (networks db)) (peers db))
    by assumption.
  rewrite map_map. f_equal. apply map_ext_in. intros n Hn.
  exact (Hcounts n Hn).
Qed.

(** * Instances of the further properties *)

Ltac in_concrete := vm_compute; repeat first [left; reflexivity | right].

Ltac nodup_concrete :=
  vm_compute;
  repeat (apply NoDup_cons; [simpl; intuition congruence |]);
  apply NoDup_nil.

Lemma empty_db_keys_unique : keys_unique empty_db.
Proof. repeat split; apply NoDup_nil. Qed.

Lemma empty_db_refs_valid : refs_valid empty_db.
Proof. intros p []. Qed.

Lemma empty_db_counts_match : counts_match empty_db.
Proof. intros n []. Qed.

Lemma empty_db_groups_valid : groups_valid empty_db.
Proof. intros p []. Qed.

Lemma keys_stay_unique_witness :
  keys_unique empty_db
  /\ keys_unique (exec_all (lib := ipaddress_v4) demo_calls empty_db).
Proof.
  split; [exact empty_db_keys_unique |].
  exact (keys_stay_unique (lib := ipaddress_v4) demo_calls empty_db
           empty_db_keys_unique).
Defined.

Lemma references_stay_valid_witness :
  refs_valid empty_db
  /\ refs_valid (exec_all (lib := ipaddress_v4) demo_calls empty_db).
Proof.
  split; [exact empty_db_refs_valid |].
  exact (references_stay_valid (lib := ipaddress_v4) demo_calls empty_db
           empty_db_refs_valid).
Defined.

(** A [remove_peer] for a peer never stored is part of the sequence. *)
Lemma peer_count_never_exceeds_rows_witness :
  let cs := (demo_calls ++ [RemovePeer "net-pi" "ghost"])%list in
  keys_unique empty_db
  /\ counts_bounded empty_db
  /\ counts_bounded (exec_all (lib := ipaddress_v4) cs empty_db).
Proof.
  intros cs.
  assert (H : counts_bounded empty_db) by (intros n []).
  split; [exact empty_db_keys_unique |]. split; [exact H |].
  exact (peer_count_never_exceeds_rows (lib := ipaddress_v4) cs empty_db
           empty_db_keys_unique H).
Defined.

Lemma peer_count_matches_when_removes_hit_witness :
  all_hit (lib := ipaddress_v4) demo_calls empty_db = true
  /\ counts_match (exec_all (lib := ipaddress_v4) demo_calls empty_db).
Proof.
  assert (H : all_hit (lib := ipaddress_v4) demo_calls empty_db = true)
    by (vm_compute; reflexivity).
  split; [exact H |].
  exact (peer_count_matches_when_removes_hit (lib := ipaddress_v4)
           demo_calls empty_db empty_db_keys_unique empty_db_refs_valid
           empty_db_counts_match H).
Defined.

Lemma group_lists_stay_valid_witness :
  let p := set_groups (Some ["admin"])
             (new_peer_row "net-pi" "peer-pi-1" "alice" (Some "10.0.0.3")
                           "key-pi-1") in
  In p (peers (exec_all (lib := ipaddress_v4) demo_calls empty_db))
  /\ NoDup (groups_of p)
  /\ (forall g, In g (groups_of p) -> In g VALID_GROUPS)
  /\ List.length (groups_of p) <= 5.
Proof.
  intros p.
  assert (H : In p (peers (exec_all (lib := ipaddress_v4) demo_calls
                             empty_db)))
    by in_concrete.
  split; [exact H |].
  exact (group_lists_stay_valid (lib := ipaddress_v4) demo_calls empty_db
           empty_db_groups_valid p H).
Defined.

Lemma add_peer_unknown_network_witness :
  ~ In "net-none" (map n_id (networks manager_db))
  /\ add_peer (lib := ipaddress_v4) "net-none" "a" None "peer-a" "key-a"
       manager_db
     = Raise (ValueError "Network net-none not found").
Proof.
  assert (H : ~ In "net-none" (map n_id (networks manager_db)))
    by (vm_compute; intuition discriminate).
  split; [exact H |].
  exact (add_peer_unknown_network (lib := ipaddress_v4) "net-none" "a" None
           "peer-a" "key-a" manager_db H).
Defined.

Lemma add_peer_duplicate_name_witness :
  exists msg,
    add_peer (lib := ipaddress_v4) "net-lab" "a" None "peer-a2" "key-a2"
      lab_db_a
    = Raise (IntegrityError msg).
Proof.
  apply (add_peer_duplicate_name (lib := ipaddress_v4) "net-lab" "a" None
           "peer-a2" "key-a2" lab_db_a
           {| n_id := "net-lab"; n_name := "Lab"; n_cidr := "10.0.0.0/30";
              n_description := ""; n_created_at := "2024-01-02T00:00:00";
              n_peer_count := 1 |}).
  - reflexivity.
  - intros _. eexists. reflexivity.
  - in_concrete.
Defined.

Lemma add_peer_explicit_ip_unchecked_witness :
  exists db',
    add_peer (lib := ipaddress_v4) "net-lab" "a" (Some "not an address")
      "peer-a" "key-a" lab_db
    = Ok ("peer-a", db')
    /\ map p_ip (peers_of "net-lab" db') = [Some "not an address"].
Proof.
  eexists. split.
  - apply (add_peer_explicit_ip_unchecked (lib := ipaddress_v4)
             "net-lab" "a" "not an address" "peer-a" "key-a" lab_db).
    + in_concrete.
    + vm_compute. intuition discriminate.
    + vm_compute. intuition discriminate.
  - reflexivity.
Defined.

Lemma remove_undoes_add_witness :
  counts_nonneg lab_db
  /\ (forall n, In n (networks lab_db) -> (n_peer_count n < MAX_INTEGER)%Z)
  /\ map n_peer_count (networks lab_db) = [4; 0]%Z
  /\ add_peer (lib := ipaddress_v4) "net-lab" "a" None "peer-a" "key-a" lab_db
     = Ok ("peer-a", lab_db_a)
  /\ remove_peer "net-lab" "a" lab_db_a = Ok (tt, lab_db).
Proof.
  assert (H1 : counts_nonneg lab_db).
  { intros n Hn. vm_compute in Hn.
    repeat (destruct Hn as [Hn | Hn]; [subst n; vm_compute; discriminate |]).
    contradiction. }
  assert (Hmax : forall n, In n (networks lab_db) ->
                           (n_peer_count n < MAX_INTEGER)%Z).
  { intros n Hn. vm_compute in Hn.
    repeat (destruct Hn as [Hn | Hn]; [subst n; reflexivity |]).
    contradiction. }
  assert (H2 : add_peer (lib := ipaddress_v4) "net-lab" "a" None "peer-a"
                 "key-a" lab_db = Ok ("peer-a", lab_db_a)) by reflexivity.
  split; [exact H1 |]. split; [exact Hmax |]. split; [reflexivity |].
  split; [exact H2 |].
  exact (remove_undoes_add (lib := ipaddress_v4) "net-lab" "a" None "peer-a"
           "key-a" lab_db "peer-a" lab_db_a H1 Hmax H2).
Defined.

Lemma assign_group_overwrites_namesakes_witness :
  map (fun p => (p_network_id p, p_groups p))
      (filter (fun p => p_name p =? "alice") (peers twins_db))
  = [("net-pi", Some ["admin"]); ("net-lab", Some [])]
  /\ exists db1 p0,
       assign_group "alice" "workers" twins_db = Ok (tt, db1)
       /\ find (fun p => p_name p =? "alice") (peers twins_db) = Some p0
       /\ forall p, In p (peers db1) -> p_name p = "alice" ->
            forall g, In g (groups_of p) <-> In g (groups_of p0) \/ g = "workers".
Proof.
  split; [reflexivity |].
  eexists.
  assert (H : assign_group "alice" "workers" twins_db
              = Ok (tt, ltac:(let d := eval vm_compute in
                                (exec (lib := ipaddress_v4)
                                      (AssignGroup "alice" "workers")
                                      twins_db) in exact d)))
    by (vm_compute; reflexivity).
  destruct (assign_group_overwrites_namesakes _ _ _ _ H) as [p0 [Hf Hall]].
  exists p0. split; [exact H |]. split; [exact Hf | exact Hall].
Defined.

Lemma list_peers_after_assign_group_witness :
  exists db1 rows,
    assign_group "alice" "admin" manager_db = Ok (tt, db1)
    /\ list_peers None (Some "admin") db1 = Ok (rows, db1)
    /\ map p_name rows = ["alice"]
    /\ (forall p, In p (peers db1) -> p_name p = "alice" -> In p rows)
    /\ (forall p, In p rows -> In p (peers db1) /\ In "admin" (groups_of p)).
Proof.
  eexists.
  assert (H : assign_group "alice" "admin" manager_db
              = Ok (tt, ltac:(let d := eval vm_compute in
                                (exec (lib := ipaddress_v4)
                                      (AssignGroup "alice" "admin")
                                      manager_db) in exact d)))
    by (vm_compute; reflexivity).
  destruct (list_peers_after_assign_group _ _ _ _ H) as [rows [Hl [H1 H2]]].
  exists rows. split; [exact H |]. split; [exact Hl |].
  split; [| split; assumption].
  vm_compute in Hl. injection Hl as <-. reflexivity.
Defined.

(** Peer "a" is added to "Lab" after peer "b": it is the second row of
    the table and the first of the listing. *)
Lemma list_peers_after_add_peer_witness :
  "net-lab" <> ""
  /\ add_peer (lib := ipaddress_v4) "net-lab" "a" None "peer-a" "key-a"
       lab_db_b
     = Ok ("peer-a", lab_db_ba)
  /\ map p_name (peers_of "net-lab" lab_db_ba) = ["b"; "a"]
  /\ option_map (map p_name)
       (match list_peers (Some "net-lab") None lab_db_ba with
        | Ok (rows, _) => Some rows
        | Raise _ => None
        end)
     = Some ["a"; "b"]
  /\ exists row before after,
       p_id row = "peer-a" /\ p_name row = "a"
       /\ peers lab_db_ba = (peers lab_db_b ++ [row])%list
       /\ list_peers (Some "net-lab") None lab_db_b
          = Ok ((before ++ after)%list, lab_db_b)
       /\ list_peers (Some "net-lab") None lab_db_ba
          = Ok ((before ++ row :: after)%list, lab_db_ba)
       /\ Sorted name_le (before ++ row :: after)
       /\ (forall q, In q before -> name_lt q row)
       /\ (forall q, In q after -> name_lt row q)
       /\ forall nid g rows,
            g <> "" ->
            list_peers nid (Some g) lab_db_ba = Ok (rows, lab_db_ba) ->
            ~ In row rows.
Proof.
  assert (H1 : "net-lab" <> "") by discriminate.
  assert (H2 : add_peer (lib := ipaddress_v4) "net-lab" "a" None "peer-a"
                 "key-a" lab_db_b = Ok ("peer-a", lab_db_ba)) by reflexivity.
  split; [exact H1 |]. split; [exact H2 |].
  split; [reflexivity |]. split; [reflexivity |].
  exact (list_peers_after_add_peer (lib := ipaddress_v4) "net-lab" "a" None
           "peer-a" "key-a" lab_db_b "peer-a" lab_db_ba H1 H2).
Defined.

(** "Lab" holds "b" and "a" in this order in the table; its listing is
    "a", "b", and after removing "a" it is "b". *)
Lemma list_peers_after_remove_peer_witness :
  "net-lab" <> ""
  /\ map p_name (peers_of "net-lab" lab_db_ba) = ["b"; "a"]
  /\ option_map (map p_name)
       (match list_peers (Some "net-lab") None lab_db_ba with
        | Ok (rows, _) => Some rows
        | Raise _ => None
        end)
     = Some ["a"; "b"]
  /\ option_map (map p_name)
       (match list_peers (Some "net-lab") None
                (exec (lib := ipaddress_v4) (RemovePeer "net-lab" "a")
                      lab_db_ba) with
        | Ok (rows, _) => Some rows
        | Raise _ => None
        end)
     = Some ["b"]
  /\ exists rows db',
       list_peers (Some "net-lab") None lab_db_ba = Ok (rows, lab_db_ba)
       /\ Sorted name_le rows
       /\ Permutation rows (peers_of "net-lab" lab_db_ba)
       /\ remove_peer "net-lab" "a" lab_db_ba = Ok (tt, db')
       /\ list_peers (Some "net-lab") None db'
          = Ok (filter (fun p => negb (p_name p =? "a")) rows, db').
Proof.
  assert (H1 : "net-lab" <> "") by discriminate.
  split; [exact H1 |]. split; [reflexivity |].
  split; [reflexivity |]. split; [reflexivity |].
  exact (list_peers_after_remove_peer "net-lab" "a" lab_db_ba H1).
Defined.

Lemma ping_peer_unknown_peer_witness :
  ~ In "zed" (map p_name (peers manager_db))
  /\ ping_peer "zed" 7 "2024-01-03T00:00:00" "2024-01-03T00:00:01" manager_db
     = Raise (ValueError "Peer zed not found").
Proof.
  assert (H : ~ In "zed" (map p_name (peers manager_db)))
    by (vm_compute; intuition discriminate).
  split; [exact H |].
  exact (ping_peer_unknown_peer "zed" 7 "2024-01-03T00:00:00"
           "2024-01-03T00:00:01" manager_db H).
Defined.

(** A negative hash: Python's [-7 % 3] is 2 and [-7 % 100] is 93. *)
Lemma ping_peer_report_witness :
  In "alice" (map p_name (peers manager_db))
  /\ exists r db',
       ping_peer "alice" (-7) "2024-01-03T00:00:00" "2024-01-03T00:00:01"
         manager_db = Ok (r, db')
       /\ (pr_reachable r = true <-> (-7 mod 3 <> 0)%Z)
       /\ (pr_reachable r = true ->
           exists ms, pr_latency_ms r = Some ms /\ (5 <= ms <= 104)%Z)
       /\ (pr_reachable r = false ->
           pr_latency_ms r = None /\ db' = manager_db).
Proof.
  assert (H : In "alice" (map p_name (peers manager_db))) by in_concrete.
  split; [exact H |].
  exact (ping_peer_report "alice" (-7) "2024-01-03T00:00:00"
           "2024-01-03T00:00:01" manager_db H).
Defined.

(** The database after a ping of "alice" that finds her reachable. *)
Lemma ping_alice :
  exists r db',
    ping_peer "alice" 7 "2024-01-03T00:00:00" "2024-01-03T00:00:01"
      manager_db = Ok (r, db')
    /\ pr_reachable r = true /\ pr_latency_ms r = Some 12%Z
    /\ map (fun p => (p_name p, p_status p, p_last_handshake p)) (peers db')
       = [("aria64", "disconnected", None);
          ("alice", "connected", Some "2024-01-03T00:00:00");
          ("blackroad-pi", "disconnected", None);
          ("macbook", "disconnected", None)].
Proof.
  do 2 eexists. split; [vm_compute; reflexivity |].
  split; [reflexivity |]. split; reflexivity.
Qed.

Lemma ping_peer_only_marks_witness :
  exists r db',
    ping_peer "alice" 7 "2024-01-03T00:00:00" "2024-01-03T00:00:01"
      manager_db = Ok (r, db')
    /\ networks db' = networks manager_db
    /\ Forall2 (pinged "2024-01-03T00:00:00") (peers manager_db) (peers db')
    /\ (pr_reachable r = true ->
        exists p0,
          find (fun p => p_name p =? "alice") (peers manager_db) = Some p0
          /\ In (set_connected "2024-01-03T00:00:00" p0) (peers db')).
Proof.
  destruct ping_alice as [r [db' [H _]]]. exists r, db'.
  split; [exact H |].
  exact (ping_peer_only_marks _ _ _ _ _ _ _ H).
Defined.

Lemma ping_peer_keeps_invariants_witness :
  exists r db',
    ping_peer "alice" 7 "2024-01-03T00:00:00" "2024-01-03T00:00:01"
      manager_db = Ok (r, db')
    /\ (keys_unique manager_db -> keys_unique db')
    /\ (refs_valid manager_db -> refs_valid db')
    /\ (counts_match manager_db -> counts_match db')
    /\ (ip_unique manager_db -> ip_unique db')
    /\ (groups_valid manager_db -> groups_valid db').
Proof.
  destruct ping_alice as [r [db' [H _]]]. exists r, db'.
  split; [exact H |].
  exact (ping_peer_keeps_invariants _ _ _ _ _ _ _ H).
Defined.

Lemma ping_peer_then_get_status_witness :
  exists r db' st st',
    ping_peer "alice" 7 "2024-01-03T00:00:00" "2024-01-03T00:00:01"
      manager_db = Ok (r, db')
    /\ get_status "2024-01-03T00:00:02" manager_db = Ok (st, manager_db)
    /\ get_status "2024-01-03T00:00:03" db' = Ok (st', db')
    /\ (st_connected_peers st <= st_connected_peers st')%Z
    /\ (pr_reachable r = true -> (1 <= st_connected_peers st')%Z).
Proof.
  destruct ping_alice as [r [db' [H _]]]. exists r, db'.
  destruct (ping_peer_then_get_status "alice" 7 "2024-01-03T00:00:00"
              "2024-01-03T00:00:01" "2024-01-03T00:00:02"
              "2024-01-03T00:00:03" manager_db r db' H)
    as [st [st' Hst]].
  exists st, st'. split; [exact H | exact Hst].
Defined.

Lemma generate_config_unknown_peer_witness :
  (forall p, In p (peers manager_db) -> p_name p = "zed" ->
             ~ In (p_network_id p) (map n_id (networks manager_db)))
  /\ generate_config "zed" "private" manager_db
     = Raise (ValueError "Peer zed not found").
Proof.
  assert (H : forall p, In p (peers manager_db) -> p_name p = "zed" ->
                ~ In (p_network_id p) (map n_id (networks manager_db)))
    by each_row.
  split; [exact H |].
  exact (generate_config_unknown_peer "zed" "private" manager_db H).
Defined.

Lemma generate_config_after_add_peer_witness :
  ~ In "a" (map p_name (peers lab_db))
  /\ add_peer (lib := ipaddress_v4) "net-lab" "a" None "peer-a" "key-a" lab_db
     = Ok ("peer-a", lab_db_a)
  /\ exists n row,
       find (fun n => n_id n =? "net-lab") (networks lab_db) = Some n
       /\ In row (peers lab_db_a) /\ p_id row = "peer-a"
       /\ generate_config "a" "private" lab_db_a
          = Ok (config_text (p_ip row) "private" "key-a" (n_cidr n), lab_db_a).
Proof.
  assert (H1 : ~ In "a" (map p_name (peers lab_db)))
    by (vm_compute; intuition discriminate).
  assert (H2 : add_peer (lib := ipaddress_v4) "net-lab" "a" None "peer-a"
                 "key-a" lab_db = Ok ("peer-a", lab_db_a)) by reflexivity.
  split; [exact H1 |]. split; [exact H2 |].
  exact (generate_config_after_add_peer (lib := ipaddress_v4) "net-lab" "a"
           None "peer-a" "key-a" "private" lab_db "peer-a" lab_db_a H1 H2).
Defined.

(** After the third, address-less peer of "Lab", the map of "Lab" cannot
    be rendered any more. *)
Lemma export_network_map_type_error_witness :
  (exists p, In p (peers_of "net-lab" lab_db_abc) /\ p_ip p = None)
  /\ (exists msg, export_network_map "net-lab" lab_db_abc = TypeError msg).
Proof.
  assert (H : exists p, In p (peers_of "net-lab" lab_db_abc)
                        /\ p_ip p = None).
  { exists (new_peer_row "net-lab" "peer-c" "c" None "key-c").
    split; [in_concrete | reflexivity]. }
  split; [exact H |].
  exact (proj1 (export_network_map_type_error "net-lab" lab_db_abc) H).
Defined.

Lemma export_network_map_layout_witness :
  (forall p, In p (peers_of "net-pi" manager_db) -> p_ip p <> None)
  /\ map p_name (order_by_name (peers_of "net-pi" manager_db))
     = ["alice"; "aria64"; "blackroad-pi"; "macbook"]
  /\ exists rows body,
       Permutation rows (peers_of "net-pi" manager_db)
       /\ Sorted name_le rows
       /\ Forall2 (fun p line => peer_line p = Formatted line) rows body
       /\ export_network_map "net-pi" manager_db
          = Formatted
              (String.concat newline
                 (["╔════════════════════════════════════════╗";
                   ("║ Network: "
                    ++ ljust 31
                         match find (fun n => n_id n =? "net-pi")
                                    (networks manager_db) with
                         | Some n => n_name n
                         | None => "Unknown"
                         end
                    ++ " ║")%string;
                   "╠════════════════════════════════════════╣"]
                  ++ body
                  ++ ["╚════════════════════════════════════════╝"])%list).
Proof.
  assert (H : forall p, In p (peers_of "net-pi" manager_db) ->
                        p_ip p <> None) by each_row.
  split; [exact H |]. split; [reflexivity |].
  exact (export_network_map_layout "net-pi" manager_db H).
Defined.

Lemma peer_line_width_witness :
  let p := new_peer_row "net-pi" "peer-pi-1" "alice" (Some "10.0.0.3")
                        "key-pi-1" in
  let line := "║ ○ alice            10.0.0.3           │" in
  peer_line p = Formatted line
  /\ len "╔════════════════════════════════════════╗" = 42
  /\ len "╚════════════════════════════════════════╝" = 42
  /\ 41 <= len line
  /\ (len (p_name p) <= 16 ->
      (forall ip, p_ip p = Some ip -> len ip <= 18) ->
      len line = 41).
Proof.
  intros p line.
  assert (H : peer_line p = Formatted line) by reflexivity.
  split; [exact H |].
  exact (peer_line_width p line H).
Defined.

Lemma populate_defaults_idempotent_witness :
  _populate_defaults (lib := ipaddress_v4) "net-pi" "2024-01-01T00:00:00"
    (fun i => "peer-pi-" ++ str_nat i) (fun i => "key-pi-" ++ str_nat i)
    empty_db
  = (Ok tt, manager_db)
  /\ _populate_defaults (lib := ipaddress_v4) "net-again"
       "2024-02-01T00:00:00"
       (fun i => "peer-again-" ++ str_nat i)
       (fun i => "key-again-" ++ str_nat i)
       manager_db
     = (Ok tt, manager_db).
Proof.
  assert (H : _populate_defaults (lib := ipaddress_v4) "net-pi"
                "2024-01-01T00:00:00"
                (fun i => "peer-pi-" ++ str_nat i)
                (fun i => "key-pi-" ++ str_nat i) empty_db
              = (Ok tt, manager_db)) by (vm_compute; reflexivity).
  split; [exact H |].
  exact (populate_defaults_idempotent (lib := ipaddress_v4)
           "net-pi" "2024-01-01T00:00:00" "net-again" "2024-02-01T00:00:00"
           (fun i => "peer-pi-" ++ str_nat i)
           (fun i => "key-pi-" ++ str_nat i)
           (fun i => "peer-again-" ++ str_nat i)
           (fun i => "key-again-" ++ str_nat i)
           empty_db manager_db H).
Defined.

Lemma populate_defaults_as_calls_witness :
  _populate_defaults (lib := ipaddress_v4) "net-pi" "2024-01-01T00:00:00"
    (fun i => "peer-pi-" ++ str_nat i) (fun i => "key-pi-" ++ str_nat i)
    empty_db
  = (Ok tt, manager_db)
  /\ manager_db
     = exec_all (lib := ipaddress_v4)
         (populate_defaults "net-pi" "2024-01-01T00:00:00"
            (fun i => "peer-pi-" ++ str_nat i)
            (fun i => "key-pi-" ++ str_nat i) empty_db)
         empty_db.
Proof.
  assert (H : _populate_defaults (lib := ipaddress_v4) "net-pi"
                "2024-01-01T00:00:00"
                (fun i => "peer-pi-" ++ str_nat i)
                (fun i => "key-pi-" ++ str_nat i) empty_db
              = (Ok tt, manager_db)) by (vm_compute; reflexivity).
  split; [exact H |].
  exact (populate_defaults_as_calls (lib := ipaddress_v4)
           "net-pi" "2024-01-01T00:00:00"
           (fun i => "peer-pi-" ++ str_nat i)
           (fun i => "key-pi-" ++ str_nat i) empty_db manager_db H).
Defined.

Lemma manager_db_keys_unique : keys_unique manager_db.
Proof. repeat split; nodup_concrete. Qed.

Lemma manager_db_refs_valid : refs_valid manager_db.
Proof.
  intros p Hp. vm_compute in Hp.
  repeat (destruct Hp as [Hp | Hp]; [subst p; in_concrete |]).
  contradiction.
Qed.

Lemma manager_db_counts_match : counts_match manager_db.
Proof.
  intros n Hn. vm_compute in Hn.
  repeat (destruct Hn as [Hn | Hn]; [subst n; reflexivity |]).
  contradiction.
Qed.

Lemma get_status_total_counts_rows_witness :
  keys_unique manager_db /\ refs_valid manager_db /\ counts_match manager_db
  /\ exists st,
       get_status "2024-01-03T00:00:00" manager_db = Ok (st, manager_db)
       /\ st_total_peers st = Z.of_nat (List.length (peers manager_db)).
Proof.
  split; [exact manager_db_keys_unique |].
  split; [exact manager_db_refs_valid |].
  split; [exact manager_db_counts_match |].
  exact (get_status_total_counts_rows "2024-01-03T00:00:00" manager_db
           manager_db_keys_unique manager_db_refs_valid
           manager_db_counts_match).
Defined.
